(* ===================================================================== *)
(* History Rewritten: the novelty gate, the history store and the         *)
(* publication cycle of history_rewritten.py, embedded in Rocq.           *)
(* ===================================================================== *)
(* Conventions of the embedding.
   - A Python str is the list of its code points (type [str]); [len] is
     [length], slicing is written out with its Python meaning for negative
     bounds.
   - A dict is a finite map (gmap) from str keys to JSON values; the token
     sets of check_uniqueness are finite sets (gset) of str.
   - A Python float is a binary64 primitive float.
   - Exceptions are values of type [exn]; a method that can raise returns a
     [result], and the methods that also read or write the file, the
     collaborators or the log run in the state-and-error monad [M].
   - The text generator, the image generator, the posting service, the
     clock and the disk are collaborators outside the program; their
     answers are taken from an [oracle]. *)

From Stdlib Require Import ZArith List Bool Lia String Ascii Floats.
From stdpp Require Import base option list gmap fin_sets.

Local Open Scope Z_scope.

(* --------------------------------------------------------------------- *)
(* 1. Python strings as code-point lists                                   *)
(* --------------------------------------------------------------------- *)

Module Str.

Definition char := N.
Definition str := list N.

(* A source literal made of ASCII characters only. *)
Fixpoint lit (s : String.string) : str :=
  match s with
  | EmptyString => []
  | String a s' => N_of_ascii a :: lit s'
  end.

Definition str_eqb (a b : str) : bool := bool_decide (a = b).

(* s[:n] for an int n: a negative n counts from the end, and a bound
   beyond either end is clipped. *)
Definition slice_to (s : str) (n : Z) : str :=
  if 0 <=? n then take (Z.to_nat n) s
  else take (Z.to_nat (Z.of_nat (length s) + n)) s.

(* str.isspace() of a one-character string (Py_UNICODE_ISSPACE): the code
   points of bidirectional type WS, B or S, or of category Zs. *)
Definition isspace (c : char) : bool :=
  ((9 <=? c) && (c <=? 13) || (28 <=? c) && (c <=? 32)
   || (c =? 133) || (c =? 160) || (c =? 5760)
   || (8192 <=? c) && (c <=? 8202) || (c =? 8232) || (c =? 8233)
   || (c =? 8239) || (c =? 8287) || (c =? 12288))%N.

(* s.split() with no separator: the maximal runs of non-space characters,
   in order; no empty string is produced.  [cur] is the run being read, in
   reverse. *)
Fixpoint split_go (cur : str) (s : str) : list str :=
  match s with
  | [] => match cur with [] => [] | _ => [rev cur] end
  | c :: s' =>
      if isspace c
      then match cur with
           | [] => split_go [] s'
           | _ => rev cur :: split_go [] s'
           end
      else split_go (c :: cur) s'
  end.

Definition split (s : str) : list str := split_go [] s.

(* str.lower() on the ASCII range.  Python's str.lower() follows the Unicode
   case mapping; the development is parametric in it (Section Gate) and uses
   this instance where a concrete run is shown. *)
Definition ascii_lower_char (c : char) : char :=
  if ((65 <=? c) && (c <=? 90))%N then (c + 32)%N else c.
Definition ascii_lower (s : str) : str := map ascii_lower_char s.

Definition ascii_upper_char (c : char) : char :=
  if ((97 <=? c) && (c <=? 122))%N then (c - 32)%N else c.
Definition ascii_upper (s : str) : str := map ascii_upper_char s.

Definition ascii_swapcase_char (c : char) : char :=
  if ((65 <=? c) && (c <=? 90))%N then (c + 32)%N
  else if ((97 <=? c) && (c <=? 122))%N then (c - 32)%N else c.
Definition ascii_swapcase (s : str) : str := map ascii_swapcase_char s.

End Str.
Import Str.

(* --------------------------------------------------------------------- *)
(* 2. Exceptions and results                                               *)
(* --------------------------------------------------------------------- *)

Inductive exn :=
  | AttributeError      (* a method looked up on a value that lacks it *)
  | UnicodeEncodeError  (* str.encode('utf-8') on a lone surrogate *)
  | ValueError          (* generate_event: a required field is missing *)
  | JSONDecodeError     (* json.load / json.loads on malformed text *)
  | OSError             (* open / write on the local disk *)
  | ServiceError (code : nat). (* a failure signalled by a collaborator *)

Inductive result (A : Type) :=
  | Ok (a : A)
  | Raise (e : exn).
Arguments Ok {A} a.
Arguments Raise {A} e.

Definition rbind {A B} (r : result A) (k : A -> result B) : result B :=
  match r with Ok a => k a | Raise e => Raise e end.

(* --------------------------------------------------------------------- *)
(* 3. str.encode('utf-8') and hashlib.sha1(...).hexdigest()                *)
(* --------------------------------------------------------------------- *)

Module Utf8.

(* The bytes of one code point; a surrogate (U+D800..U+DFFF) cannot be
   encoded, and nothing above U+10FFFF is a character. *)
Definition encode_char (c : char) : option (list Z) :=
  let z := Z.of_N c in
  if z <? 128 then Some [z]
  else if z <? 2048 then
    Some [Z.lor 192 (Z.shiftr z 6); Z.lor 128 (Z.land z 63)]
  else if (55296 <=? z) && (z <=? 57343) then None
  else if z <? 65536 then
    Some [Z.lor 224 (Z.shiftr z 12);
          Z.lor 128 (Z.land (Z.shiftr z 6) 63);
          Z.lor 128 (Z.land z 63)]
  else if z <? 1114112 then
    Some [Z.lor 240 (Z.shiftr z 18);
          Z.lor 128 (Z.land (Z.shiftr z 12) 63);
          Z.lor 128 (Z.land (Z.shiftr z 6) 63);
          Z.lor 128 (Z.land z 63)]
  else None.

Fixpoint encode (s : str) : result (list Z) :=
  match s with
  | [] => Ok []
  | c :: s' =>
      match encode_char c with
      | None => Raise UnicodeEncodeError
      | Some bs => rbind (encode s') (fun rest => Ok (bs ++ rest))
      end
  end.

End Utf8.

Module Sha1.

Definition w32 (x : Z) : Z := x mod 4294967296.
Definition rotl (n x : Z) : Z :=
  w32 (Z.lor (Z.shiftl x n) (Z.shiftr x (32 - n))).
Definition add32 (x y : Z) : Z := w32 (x + y).
Definition not32 (x : Z) : Z := 4294967295 - x.

(* The message length in bits as eight big-endian bytes. *)
Definition be_bytes (k : nat) (x : Z) : list Z :=
  map (fun i => Z.land (Z.shiftr x (8 * Z.of_nat (k - 1 - i))) 255) (seq 0 k).

Definition pad (msg : list Z) : list Z :=
  let l := Z.of_nat (length msg) in
  let zeros := Z.to_nat ((55 - l) mod 64) in
  msg ++ [128] ++ repeat 0 zeros ++ be_bytes 8 (8 * l).

Fixpoint be_words (bs : list Z) : list Z :=
  match bs with
  | a :: b :: c :: d :: rest =>
      (((a * 256 + b) * 256 + c) * 256 + d) :: be_words rest
  | _ => []
  end.

Fixpoint chunks {A} (fuel : nat) (n : nat) (l : list A) : list (list A) :=
  match fuel with
  | O => []
  | S fuel' =>
      match l with
      | [] => []
      | _ => take n l :: chunks fuel' n (drop n l)
      end
  end.

(* The message schedule: [ws] holds the words computed so far, newest
   first; word t is rotl 1 (w(t-3) xor w(t-8) xor w(t-14) xor w(t-16)). *)
Fixpoint schedule (k : nat) (ws : list Z) : list Z :=
  match k with
  | O => ws
  | S k' =>
      let w := rotl 1 (Z.lxor (Z.lxor (nth 2 ws 0) (nth 7 ws 0))
                              (Z.lxor (nth 13 ws 0) (nth 15 ws 0))) in
      schedule k' (w :: ws)
  end.

Record state := St { ha : Z; hb : Z; hc : Z; hd : Z; he : Z }.

Definition init : state :=
  St 1732584193 4023233417 2562383102 271733878 3285377520.

Definition round_fk (t : nat) (b c d : Z) : Z * Z :=
  if (t <? 20)%nat then
    (Z.lor (Z.land b c) (Z.land (not32 b) d), 1518500249)
  else if (t <? 40)%nat then (Z.lxor (Z.lxor b c) d, 1859775393)
  else if (t <? 60)%nat then
    (Z.lor (Z.lor (Z.land b c) (Z.land b d)) (Z.land c d), 2400959708)
  else (Z.lxor (Z.lxor b c) d, 3395469782).

Fixpoint rounds (t : nat) (ws : list Z) (s : state) : state :=
  match ws with
  | [] => s
  | w :: ws' =>
      let '(f, k) := round_fk t (hb s) (hc s) (hd s) in
      let tmp := add32 (add32 (add32 (add32 (rotl 5 (ha s)) f) (he s)) k) w in
      rounds (S t) ws' (St tmp (ha s) (rotl 30 (hb s)) (hc s) (hd s))
  end.

Definition compress (h : state) (block : list Z) : state :=
  let ws := rev (schedule 64 (rev (be_words block))) in
  let s := rounds 0 ws h in
  St (add32 (ha h) (ha s)) (add32 (hb h) (hb s)) (add32 (hc h) (hc s))
     (add32 (hd h) (hd s)) (add32 (he h) (he s)).

Definition digest_state (msg : list Z) : state :=
  let p := pad msg in
  fold_left compress (chunks (length p) 64 p) init.

(* The 160-bit digest as one number, h0 the most significant word. *)
Definition digest (msg : list Z) : Z :=
  let s := digest_state msg in
  (((ha s * 4294967296 + hb s) * 4294967296 + hc s) * 4294967296 + hd s)
    * 4294967296 + he s.

Definition hex_digit (d : Z) : N :=
  if d <? 10 then Z.to_N (48 + d) else Z.to_N (87 + d).

(* [k] lower-case hexadecimal digits of x, most significant first. *)
Fixpoint hex (k : nat) (x : Z) : str :=
  match k with
  | O => []
  | S k' => hex k' (x / 16) ++ [hex_digit (x mod 16)]
  end.

Definition hexdigest (msg : list Z) : str := hex 40 (digest msg).

End Sha1.

(* --------------------------------------------------------------------- *)
(* 4. Data model                                                           *)
(* --------------------------------------------------------------------- *)

(* What json.load can put in a dict of the history log. *)
#[warnings="-register-all"]
Inductive json :=
  | JNull
  | JBool (b : bool)
  | JInt (z : Z)
  | JFloat (f : float)
  | JStr (s : str)
  | JArr (l : list json)
  | JObj (m : gmap str json).

(* An entry of the history log (List[Dict]) is a dict with str keys,
   gmap str json; the log is a list of them. *)

(* A candidate event (Dict[str, str]) as generate_event returns it, after
   the check that the five required fields are present. *)
Record Event := mkEvent {
  date : str;
  location : str;
  title : str;
  description : str;
  image_prompt : str
}.

(* The keys the program uses. *)
Definition k_timestamp : str := lit "timestamp".
Definition k_title : str := lit "title".
Definition k_date : str := lit "date".
Definition k_location : str := lit "location".
Definition k_description : str := lit "description".
Definition k_image_prompt : str := lit "image_prompt".
Definition k_image_path : str := lit "image_path".
Definition k_hash : str := lit "hash".

(* dict.get(key, default) *)
Definition get (entry : gmap str json) (key : str) (default : json) : json :=
  match entry !! key with
  | Some v => v
  | None => default
  end.

(* --------------------------------------------------------------------- *)
(* 5. calculate_content_hash                                               *)
(* --------------------------------------------------------------------- *)

(* f"{event['title']}|{event['description']}|{event['location']}" *)
Definition content_of (t d l : str) : str :=
  t ++ lit "|" ++ d ++ lit "|" ++ l.

Definition calculate_content_hash (event : Event) : result str :=
  let content := content_of (title event) (description event) (location event) in
  rbind (Utf8.encode content) (fun bytes => Ok (Sha1.hexdigest bytes)).

(* --------------------------------------------------------------------- *)
(* 6. format_post_text                                                     *)
(* --------------------------------------------------------------------- *)

(* The calendar sign is U+1F5D3 followed by the variation selector
   U+FE0F; the pin is U+1F4CD; "\n" is U+000A. *)
Definition header_of (event : Event) : str :=
  [128467%N; 65039%N] ++ lit " " ++ date event ++ [10%N]
  ++ [128205%N] ++ lit " " ++ location event ++ [10%N; 10%N].

Definition format_post_text (event : Event) : str :=
  let post_text := header_of event ++ description event in
  if (280 <? length post_text)%nat then
    let header := header_of event in
    let available_chars := 280 - Z.of_nat (length header) - 3 in
    let truncated_desc :=
      slice_to (description event) available_chars ++ lit "..." in
    header ++ truncated_desc
  else post_text.

(* --------------------------------------------------------------------- *)
(* 7. The novelty gate: the two passes of check_uniqueness                 *)
(* --------------------------------------------------------------------- *)

(* int / int and the comparison with the float threshold.  The operands
   are set sizes; the conversion is exact below 2^53. *)
Definition float_of_nat (n : nat) : float :=
  PrimFloat.of_uint63 (Uint63.of_Z (Z.of_nat n)).

Definition truediv (a b : nat) : float :=
  PrimFloat.div (float_of_nat a) (float_of_nat b).

(* similarity = intersection / union if union > 0 else 0 *)
Definition similarity (new_words existing_words : gset str) : float :=
  let intersection := size (new_words ∩ existing_words) in
  let union := size (new_words ∪ existing_words) in
  if (0 <? union)%nat then truediv intersection union else PrimFloat.zero.

(* entry.get('hash') == new_hash: a missing key gives None, and only a
   str compares equal to a str. *)
Definition hash_equal (entry : gmap str json) (new_hash : str) : bool :=
  match entry !! k_hash with
  | Some (JStr h) => str_eqb h new_hash
  | _ => false
  end.

(* The first loop: is there an entry with the candidate's hash? *)
Definition hash_pass (history_log : list (gmap str json)) (new_hash : str) : bool :=
  existsb (fun entry => hash_equal entry new_hash) history_log.

Section Gate.

(* str.lower(), the Unicode lower-casing of the runtime. *)
Variable lower : str -> str.

(* x.lower() for whatever value x is: only a str has the method. *)
Definition lower_of (v : json) : result str :=
  match v with
  | JStr s => Ok (lower s)
  | _ => Raise AttributeError
  end.

(* set(a.lower().split() + b.lower().split() + c.lower().split()) *)
Definition words_of (a b c : str) : gset str :=
  list_to_set (split (lower a) ++ split (lower b) ++ split (lower c)).

Definition new_words_of (new_event : Event) : gset str :=
  words_of (title new_event) (description new_event) (location new_event).

Definition existing_words_of (entry : gmap str json) : result (gset str) :=
  rbind (lower_of (get entry k_title (JStr []))) (fun a =>
  rbind (lower_of (get entry k_description (JStr []))) (fun b =>
  rbind (lower_of (get entry k_location (JStr []))) (fun c =>
  Ok (list_to_set (split a ++ split b ++ split c))))).

(* The second loop: Ok false at the first entry whose similarity exceeds
   the threshold, Ok true when the loop runs to its end. *)
Fixpoint similarity_pass (new_words : gset str) (threshold : float)
    (history_log : list (gmap str json)) : result bool :=
  match history_log with
  | [] => Ok true
  | entry :: rest =>
      rbind (existing_words_of entry) (fun existing_words =>
        if PrimFloat.ltb threshold (similarity new_words existing_words)
        then Ok false
        else similarity_pass new_words threshold rest)
  end.

End Gate.

(* threshold: float = 0.7, the binary64 number nearest to 7/10. *)
Definition default_threshold : float := 0x1.6666666666666p-1%float.

(* --------------------------------------------------------------------- *)
(* 8. The world of one run, and the monad of the methods that touch it     *)
(* --------------------------------------------------------------------- *)

(* history_log.json as load_history_log can find it.  A file that json.load
   can read is modelled by the list it holds: json.dump followed by
   json.load gives the list back. *)
Inductive file_state :=
  | NoFile                               (* os.path.exists is false *)
  | Garbled                              (* present; open or json.load raises *)
  | Stored (h : list (gmap str json)).   (* present; json.load returns h *)

Inductive level := INFO | ERROR.

(* The log keeps the level and the fixed part of each message. *)
Record world := mkWorld {
  file : file_state;
  log : list (level * String.string);
  gen_calls : nat;            (* requests sent to the text generator *)
  image_calls : nat;          (* requests sent to the image generator *)
  posts : list (str * str)    (* statuses the platform acknowledged:
                                 text and image path *)
}.

Inductive write_outcome :=
  | Written        (* open and json.dump complete *)
  | OpenRefused    (* open(..., 'w') raises; the file is untouched *)
  | WriteBroken.   (* the file is truncated and json.dump raises *)

(* The collaborators' answers. *)
Record oracle := mkOracle {
  (* the n-th chat completion, after json.loads: an exception or a dict *)
  chat_answer : nat -> result (gmap str str);
  (* generate_image(image_prompt, event_title): an exception or the path *)
  image_answer : str -> str -> result str;
  (* media_upload(image_path): an exception or the media id *)
  upload_answer : str -> result nat;
  (* create_tweet(text, media_ids): an exception, or response.data, which
     is empty (None) or holds the id of the tweet *)
  tweet_answer : str -> nat -> result (option nat);
  (* datetime.now().isoformat() *)
  now : str;
  (* what happens when save_history_log opens and writes the file *)
  disk : write_outcome
}.

Definition M (A : Type) : Type := world -> result A * world.

Definition ret {A} (a : A) : M A := fun w => (Ok a, w).
Definition raise {A} (e : exn) : M A := fun w => (Raise e, w).
Definition bind {A B} (m : M A) (k : A -> M B) : M B :=
  fun w => match m w with
           | (Ok a, w') => k a w'
           | (Raise e, w') => (Raise e, w')
           end.
Definition lift {A} (r : result A) : M A := fun w => (r, w).

(* try: m  except Exception as e: handler e *)
Definition try_except {A} (m : M A) (handler : exn -> M A) : M A :=
  fun w => match m w with
           | (Ok a, w') => (Ok a, w')
           | (Raise e, w') => handler e w'
           end.

Notation "'let*' x ':=' m 'in' k" := (bind m (fun x => k))
  (at level 10, x name, m at level 100, k at level 200).
Notation "m '>>' k" := (bind m (fun _ => k))
  (at level 90, right associativity).

Definition logger (l : level) (msg : String.string) : M unit :=
  fun w => (Ok tt, mkWorld (file w) (log w ++ [(l, msg)]) (gen_calls w)
                           (image_calls w) (posts w)).

Definition set_file (f : file_state) (w : world) : world :=
  mkWorld f (log w) (gen_calls w) (image_calls w) (posts w).

(* --------------------------------------------------------------------- *)
(* 9. The history store: load_history_log and save_history_log             *)
(* --------------------------------------------------------------------- *)

Definition path_exists : M bool :=
  fun w => (Ok (match file w with NoFile => false | _ => true end), w).

(* with open(file, 'r') as f: return json.load(f) *)
Definition read_json : M (list (gmap str json)) :=
  fun w => match file w with
           | Stored h => (Ok h, w)
           | Garbled => (Raise JSONDecodeError, w)
           | NoFile => (Raise OSError, w)
           end.

Definition load_history_log : M (list (gmap str json)) :=
  let* present := path_exists in
  if negb present then ret []
  else
    try_except read_json
      (fun e => logger ERROR "Error loading history log" >> ret []).

Section Bot.

Variable lower : str -> str.
Variable env : oracle.

(* with open(file, 'w') as f: json.dump(history_log, f, ...) *)
Definition write_json (history_log : list (gmap str json)) : M unit :=
  fun w => match disk env with
           | Written => (Ok tt, set_file (Stored history_log) w)
           | OpenRefused => (Raise OSError, w)
           | WriteBroken => (Raise OSError, set_file Garbled w)
           end.

Definition save_history_log (history_log : list (gmap str json)) : M unit :=
  try_except (write_json history_log)
    (fun e => logger ERROR "Error saving history log" >> raise e).

(* --------------------------------------------------------------------- *)
(* 10. check_uniqueness                                                    *)
(* --------------------------------------------------------------------- *)

Definition check_uniqueness (new_event : Event) (threshold : float) : M bool :=
  let* history_log := load_history_log in
  let* new_hash := lift (calculate_content_hash new_event) in
  if hash_pass history_log new_hash then
    logger INFO "Event rejected: exact hash match found" >> ret false
  else
    let new_words := new_words_of lower new_event in
    let* unique := lift (similarity_pass lower new_words threshold history_log) in
    if unique then logger INFO "Event passed uniqueness check" >> ret true
    else logger INFO "Event rejected: high similarity with existing post"
         >> ret false.

(* --------------------------------------------------------------------- *)
(* 11. The collaborators' wrappers                                         *)
(* --------------------------------------------------------------------- *)

Definition required_fields : list str :=
  [k_date; k_location; k_title; k_description; k_image_prompt].

Definition field (event_data : gmap str str) (key : str) : str :=
  default [] (event_data !! key).

(* The request to the chat model, the removal of the code fence around
   its answer and json.loads: whatever raises there is one answer of the
   oracle. *)
Definition ask_chat : M (gmap str str) :=
  fun w => (chat_answer env (gen_calls w),
            mkWorld (file w) (log w) (S (gen_calls w)) (image_calls w) (posts w)).

Definition generate_event : M Event :=
  try_except
    (let* event_data := ask_chat in
     if negb (forallb (fun f => bool_decide (is_Some (event_data !! f)))
                      required_fields)
     then raise ValueError
     else
       logger INFO "Generated event" >>
       ret (mkEvent (field event_data k_date) (field event_data k_location)
                    (field event_data k_title) (field event_data k_description)
                    (field event_data k_image_prompt)))
    (fun e => logger ERROR "Error generating event" >> raise e).

(* The request to the image model, the download, the file name (time stamp
   and the title reduced to letters, digits and underscores) and the write
   of the image: one answer of the oracle, an exception or the path. *)
Definition ask_image (image_prompt event_title : str) : M str :=
  fun w => (image_answer env image_prompt event_title,
            mkWorld (file w) (log w) (gen_calls w) (S (image_calls w)) (posts w)).

Definition generate_image (image_prompt event_title : str) : M str :=
  try_except
    (let* filepath := ask_image image_prompt event_title in
     logger INFO "Image saved" >> ret filepath)
    (fun e => logger ERROR "Error generating image" >> raise e).

(* create_tweet; an acknowledged status is on the platform. *)
Definition create_tweet (text image_path : str) (media_id : nat) : M (option nat) :=
  fun w => match tweet_answer env text media_id with
           | Ok (Some id) =>
               (Ok (Some id),
                mkWorld (file w) (log w) (gen_calls w) (image_calls w)
                        (posts w ++ [(text, image_path)]))
           | r => (r, w)
           end.

Definition post_to_x (event : Event) (image_path : str) : M bool :=
  try_except
    (let post_text := format_post_text event in
     let* media_id := lift (upload_answer env image_path) in
     let* data := create_tweet post_text image_path media_id in
     match data with
     | Some tweet_id => logger INFO "Tweet posted successfully" >> ret true
     | None => logger ERROR "Failed to post tweet - no response data" >> ret false
     end)
    (fun e => logger ERROR "Error posting to X" >> ret false).

(* --------------------------------------------------------------------- *)
(* 12. run                                                                 *)
(* --------------------------------------------------------------------- *)

Definition event_entry_of (event : Event) (image_path hash : str) : gmap str json :=
  <[k_timestamp := JStr (now env)]>
  (<[k_title := JStr (title event)]>
  (<[k_date := JStr (date event)]>
  (<[k_location := JStr (location event)]>
  (<[k_description := JStr (description event)]>
  (<[k_image_prompt := JStr (image_prompt event)]>
  (<[k_image_path := JStr image_path]>
  (<[k_hash := JStr hash]> ∅))))))).

(* Lines 272-298: illustrate, publish and record an accepted event. *)
Definition illustrate_publish_record (event : Event) : M bool :=
  logger INFO "Generating image..." >>
  let* image_path := generate_image (image_prompt event) (title event) in
  logger INFO "Posting to X..." >>
  let* posted := post_to_x event image_path in
  if posted then
    let* history_log := load_history_log in
    let* hash := lift (calculate_content_hash event) in
    let event_entry := event_entry_of event image_path hash in
    save_history_log (history_log ++ [event_entry]) >>
    logger INFO "Post published successfully!" >>
    ret true
  else
    logger ERROR "Failed to post to X" >> ret false.

Definition run : M bool :=
  try_except
    (logger INFO "Starting History Rewritten bot..." >>
     logger INFO "Generating alternate history event..." >>
     let* event := generate_event in
     logger INFO "Checking event uniqueness..." >>
     let* unique := check_uniqueness event default_threshold in
     if negb unique then
       logger INFO "Event too similar to previous posts, trying again..." >>
       let* event := generate_event in
       let* unique := check_uniqueness event default_threshold in
       if negb unique then
         logger ERROR "Unable to generate unique event after 2 attempts" >>
         ret false
       else illustrate_publish_record event
     else illustrate_publish_record event)
    (fun e => logger ERROR "Bot execution failed" >> ret false).

End Bot.

(* The RECORD step of run (lines 280, 291 and 292) for an entry that has
   been built: load, append, save. *)
Definition append_and_save (env : oracle) (entry : gmap str json) : M unit :=
  let* history_log := load_history_log in
  save_history_log env (history_log ++ [entry]).

(* N record steps on a store that does not exist yet leave the N entries,
   in the order of the calls. *)
Fixpoint append_all (env : oracle) (entries : list (gmap str json)) : M unit :=
  match entries with
  | [] => ret tt
  | entry :: rest => append_and_save env entry >> append_all env rest
  end.

(* The world after one more line in the log. *)
Definition logged (l : level) (msg : String.string) (w : world) : world :=
  mkWorld (file w) (log w ++ [(l, msg)]) (gen_calls w) (image_calls w) (posts w).

(* --------------------------------------------------------------------- *)
(* 13. Vocabulary of the properties                                        *)
(* --------------------------------------------------------------------- *)

(* The text a stored record contributes for a key: its str, or the empty
   string when the key is missing. *)
Definition text_of (entry : gmap str json) (key : str) : str :=
  match entry !! key with
  | Some (JStr s) => s
  | _ => []
  end.

(* A field that is missing or holds a str. *)
Definition text_or_missing (v : option json) : bool :=
  match v with
  | None | Some (JStr _) => true
  | Some _ => false
  end.

(* A record whose title, description and location are each missing or a
   str; any other key may hold anything. *)
Definition partial_record (entry : gmap str json) : bool :=
  text_or_missing (entry !! k_title)
  && text_or_missing (entry !! k_description)
  && text_or_missing (entry !! k_location).

Definition record_words (lower : str -> str) (entry : gmap str json) : gset str :=
  words_of lower (text_of entry k_title) (text_of entry k_description)
           (text_of entry k_location).

(* Jaccard similarity in the words of the specification: the size of the
   intersection over the size of the union, and 0 for two empty sets. *)
Definition jaccard (a b : gset str) : float :=
  if bool_decide (a = ∅ ∧ b = ∅) then PrimFloat.zero
  else truediv (size (a ∩ b)) (size (a ∪ b)).

(* The token set in the words of the specification: the tokens of the
   concatenation title + description + location. *)
Definition concat_tokens (lower : str -> str) (t d l : str) : gset str :=
  list_to_set (split (lower (t ++ d ++ l))).

(* s' is s with the case of some ASCII letters changed: the strings have
   the same length and at each place the same character, or the same
   letter of A-Z, a-z in either case. *)
Definition ascii_recased (s s' : str) : Prop := ascii_lower s = ascii_lower s'.

(* The changes of a text field the second loop cannot see: a change of the
   case of ASCII letters, or a change that leaves the result of lower() the
   same.  Not every change of letter case is of this kind: upper() can
   change what lower() returns (Latin1.upper below). *)
Definition lowers_alike (lower : str -> str) (s s' : str) : Prop :=
  ascii_recased s s' \/ lower s = lower s'.

Definition event_lowers_alike (lower : str -> str) (e e' : Event) : Prop :=
  lowers_alike lower (title e) (title e')
  /\ lowers_alike lower (description e) (description e')
  /\ lowers_alike lower (location e) (location e').

(* Two stored values of one field: both str and changed as above, or the
   same value (missing on both sides, or not a str). *)
Definition field_lowers_alike (lower : str -> str) (v v' : option json) : Prop :=
  match v, v' with
  | Some (JStr s), Some (JStr s') => lowers_alike lower s s'
  | _, _ => v = v'
  end.

Definition record_lowers_alike (lower : str -> str) (r r' : gmap str json) : Prop :=
  field_lowers_alike lower (r !! k_title) (r' !! k_title)
  /\ field_lowers_alike lower (r !! k_description) (r' !! k_description)
  /\ field_lowers_alike lower (r !! k_location) (r' !! k_location).

(* The similarity check_uniqueness computes between a candidate and one
   stored entry, when the entry's three fields can be lower-cased. *)
Definition similarity_with (lower : str -> str) (e : Event)
    (entry : gmap str json) : result float :=
  rbind (existing_words_of lower entry) (fun existing_words =>
    Ok (similarity (new_words_of lower e) existing_words)).

(* Two events that differ in exactly one of title, description, location. *)
Definition one_field_changed (e e' : Event) : Prop :=
  (title e <> title e' /\ description e = description e'
   /\ location e = location e')
  \/ (title e = title e' /\ description e <> description e'
      /\ location e = location e')
  \/ (title e = title e' /\ description e = description e'
      /\ location e <> location e').

(* The default threshold 0.7 against the exact quotient: for every pair of
   sizes up to 256 the float comparison agrees with 7 * union < 10 *
   intersection. *)
Definition threshold_exact_row (union : nat) : bool :=
  forallb (fun intersection =>
             Bool.eqb (PrimFloat.ltb default_threshold (truediv intersection union))
                      (7 * Z.of_nat union <? 10 * Z.of_nat intersection))
          (seq 0 (S union)).

(* The events with a title of n letters a and nothing else. *)
Definition title_run (n : nat) : Event :=
  mkEvent [] [] (repeat 97%N n) [] [].

(* A SHA-1 digest is a number below 2^160. *)
Definition digest_bound : Z := 2 ^ 160.

Definition words_in_range (s : Sha1.state) : Prop :=
  0 <= Sha1.ha s < 4294967296 /\ 0 <= Sha1.hb s < 4294967296
  /\ 0 <= Sha1.hc s < 4294967296 /\ 0 <= Sha1.hd s < 4294967296
  /\ 0 <= Sha1.he s < 4294967296.

Definition bar : char := 124%N.

(* The lines of the log that carry a verdict of check_uniqueness. *)
Definition is_verdict (line : level * String.string) : bool :=
  match line with
  | (INFO, msg) =>
      (String.eqb msg "Event rejected: exact hash match found"
       || String.eqb msg "Event passed uniqueness check"
       || String.eqb msg "Event rejected: high similarity with existing post")%bool
  | _ => false
  end.

Definition verdicts (w : world) : nat := length (filter is_verdict (log w)).

(* What a step adds to the counters of the world: requests to the text
   generator, requests to the image generator, verdicts of the gate, and
   acknowledged posts. *)
Definition grows (w w' : world) (dg di dv : nat) (dp : list (str * str)) : Prop :=
  gen_calls w' = (gen_calls w + dg)%nat
  /\ image_calls w' = (image_calls w + di)%nat
  /\ verdicts w' = (verdicts w + dv)%nat
  /\ posts w' = posts w ++ dp.

(* The answer of the n-th request to the text generator, after the check
   of the required fields. *)
Definition generated (env : oracle) (n : nat) : result Event :=
  fst (generate_event env (mkWorld NoFile [] n 0 [])).

(* The verdict of the gate, at the default threshold, against a state of
   the file. *)
Definition gate_verdict (lower : str -> str) (event : Event) (f : file_state)
  : result bool :=
  fst (check_uniqueness lower event default_threshold (mkWorld f [] 0 0 [])).

(* What load_history_log returns in a state of the file. *)
Definition loaded (f : file_state) : list (gmap str json) :=
  match f with
  | Stored h => h
  | NoFile | Garbled => []
  end.

(* A post (text, image path) that the collaborators confirmed: the image
   generator delivered the image, the upload gave a media id, and
   create_tweet answered with data. *)
Definition published (env : oracle) (post : str * str) : Prop :=
  (exists image_prompt event_title,
      image_answer env image_prompt event_title = Ok (snd post))
  /\ exists media_id tweet_id,
       upload_answer env (snd post) = Ok media_id
       /\ tweet_answer env (fst post) media_id = Ok (Some tweet_id).

(* The three ways a cycle ends, from its answer, the posts it added and
   the file before and after: published and recorded; failed with nothing
   published and the file as it was; failed in the record step, after the
   post was published, because the disk refused the write. *)
Definition cycle_end (env : oracle) (b : bool) (dp : list (str * str))
    (f f' : file_state) : Prop :=
  (b = true /\ disk env = Written
   /\ exists post entry,
        dp = [post] /\ published env post
        /\ f' = Stored (loaded f ++ [entry]))
  \/ (b = false /\ dp = [] /\ f' = f)
  \/ (b = false /\ disk env <> Written
      /\ (exists post, dp = [post] /\ published env post)
      /\ (f' = f \/ f' = Garbled)).

(* The course of a cycle, read off the collaborators' answers: what run
   returns (when the course decides it), and how many requests to the text
   generator, requests to the image generator and verdicts of the gate it
   takes. *)
Definition cycle_course (lower : str -> str) (env : oracle) (w : world)
    (b : bool) (dg di dv : nat) (dp : list (str * str)) : Prop :=
  let stopped := (b = false /\ di = 0%nat /\ dp = []) in
  match generated env (gen_calls w) with
  | Raise _ => dg = 1%nat /\ dv = 0%nat /\ stopped
  | Ok e1 =>
      match gate_verdict lower e1 (file w) with
      | Raise _ => dg = 1%nat /\ dv = 0%nat /\ stopped
      | Ok true => dg = 1%nat /\ dv = 1%nat /\ di = 1%nat
      | Ok false =>
          match generated env (S (gen_calls w)) with
          | Raise _ => dg = 2%nat /\ dv = 1%nat /\ stopped
          | Ok e2 =>
              match gate_verdict lower e2 (file w) with
              | Raise _ => dg = 2%nat /\ dv = 1%nat /\ stopped
              | Ok true => dg = 2%nat /\ dv = 2%nat /\ di = 1%nat
              | Ok false => dg = 2%nat /\ dv = 2%nat /\ stopped
              end
          end
      end
  end.

(* --------------------------------------------------------------------- *)
(* 14. Sample data                                                         *)
(* --------------------------------------------------------------------- *)

Module Sample.

Definition radio : Event :=
  mkEvent (lit "May 1, 1900") (lit "Paris, France")
          (lit "The Silent Radio") (lit "Marconi abandons wireless telegraphy")
          (lit "black and white photograph of a workshop").

Definition radio_upper : Event :=
  mkEvent (date radio) (ascii_upper (location radio))
          (ascii_upper (title radio)) (ascii_upper (description radio))
          (image_prompt radio).

Definition radio_dict : gmap str str :=
  <[k_date := date radio]>
  (<[k_location := location radio]>
  (<[k_title := title radio]>
  (<[k_description := description radio]>
  (<[k_image_prompt := image_prompt radio]> ∅)))).

(* A stored record that has lost its description and its location. *)
Definition partial : gmap str json :=
  <[k_title := JStr (lit "the silent radio")]> ∅.

(* A stored record whose title is not a str. *)
Definition broken : gmap str json :=
  <[k_title := JNull]> ∅.

(* Every collaborator answers and the disk accepts the write. *)
Definition fair : oracle :=
  mkOracle (fun _ => Ok radio_dict) (fun _ _ => Ok (lit "generated_images/x.png"))
           (fun _ => Ok 7%nat) (fun _ _ => Ok (Some 9%nat))
           (lit "2025-01-01T00:00:00") Written.

(* The platform answers without data. *)
Definition mute : oracle :=
  mkOracle (fun _ => Ok radio_dict) (fun _ _ => Ok (lit "generated_images/x.png"))
           (fun _ => Ok 7%nat) (fun _ _ => Ok None)
           (lit "2025-01-01T00:00:00") Written.

Definition fresh : world := mkWorld NoFile [] 0 0 [].

Definition world_with (h : list (gmap str json)) : world :=
  mkWorld (Stored h) [] 0 0 [].

(* A date of 11 characters, a location of 270: the header has 289. *)
Definition long_place : Event :=
  mkEvent (lit "May 1, 1900") (repeat 97%N 270) (lit "t")
          (lit "Short text") (lit "p").

(* A description of 300 characters under a short header. *)
Definition long_text : Event :=
  mkEvent (lit "May 1, 1900") (lit "Paris, France") (lit "t")
          (repeat 97%N 300) (lit "p").

(* The fingerprint of a sample event, computed once. *)
Definition hash_of (event : Event) : str :=
  match calculate_content_hash event with
  | Ok h => h
  | Raise _ => []
  end.

Definition radio_hash : str := Eval vm_compute in hash_of radio.

(* The record run stores for the sample event. *)
Definition radio_record : gmap str json :=
  event_entry_of fair radio (lit "generated_images/x.png") radio_hash.

(* The stored title in capitals. *)
Definition partial_upper : gmap str json :=
  <[k_title := JStr (lit "THE SILENT RADIO")]> ∅.

(* Two events whose three fields concatenate to the same string. *)
Definition split_title : Event :=
  mkEvent (lit "May 1, 1900") (lit "Paris") (lit "Radio") (lit "silence")
          (lit "p").

Definition joined_title : Event :=
  mkEvent (lit "May 1, 1900") (lit "Paris") (lit "Radiosilence") [] (lit "p").

Definition joined_hash : str := Eval vm_compute in hash_of joined_title.

Definition joined_record : gmap str json :=
  event_entry_of fair joined_title (lit "generated_images/y.png") joined_hash.

(* Two events whose fields differ and whose content strings coincide. *)
Definition bar_in_title : Event :=
  mkEvent (lit "May 1, 1900") (lit "Paris") (lit "Rome|Carthage") (lit "peace")
          (lit "p").

Definition bar_in_description : Event :=
  mkEvent (lit "May 1, 1900") (lit "Paris") (lit "Rome") (lit "Carthage|peace")
          (lit "p").

(* The smallest candidate of the test scenarios. *)
Definition xyz : Event :=
  mkEvent (lit "May 1, 1900") (lit "Z") (lit "X") (lit "Y happens") (lit "p").

(* The sample event moved to another city: one field changed. *)
Definition radio_moved : Event :=
  mkEvent (date radio) (lit "Rome, Italy") (title radio) (description radio)
          (image_prompt radio).

End Sample.

(* --------------------------------------------------------------------- *)
(* 15. The rest of the program                                             *)
(* --------------------------------------------------------------------- *)

(* str.lstrip(), str.rstrip() and str.strip() with no argument: the white
   space at the ends goes. *)
Fixpoint lstrip (s : str) : str :=
  match s with
  | [] => []
  | c :: s' => if isspace c then lstrip s' else s
  end.

Definition rstrip (s : str) : str := rev (lstrip (rev s)).

Definition strip (s : str) : str := rstrip (lstrip s).

Definition startswith (s prefix : str) : bool :=
  bool_decide (take (length prefix) s = prefix).

Definition endswith (s suffix : str) : bool :=
  bool_decide (drop (length s - length suffix) s = suffix).

(* generate_event, lines 98 to 103: the answer of the chat model before
   json.loads.
     content = response.choices[0].message.content.strip()
     if content.startswith('```json'): content = content[7:]
     if content.endswith('```'): content = content[:-3] *)
Definition fence_json : str := lit "```json".
Definition fence : str := lit "```".

Definition clean_content (raw : str) : str :=
  let content := strip raw in
  let content :=
    if startswith content fence_json then drop 7 content else content in
  if endswith content fence then slice_to content (-3) else content.

Section Image.

(* str.isalnum() of one character, from the Unicode database. *)
Variable isalnum : char -> bool.

(* c.isalnum() or c in (' ', '_') *)
Definition kept (c : char) : bool :=
  isalnum c || (c =? 32)%N || (c =? 95)%N.

(* s.replace(' ', '_') *)
Definition replace_space (s : str) : str :=
  map (fun c => if (c =? 32)%N then 95%N else c) s.

(* generate_image, lines 196 and 197:
     safe_title = "".join(c for c in event_title
                          if c.isalnum() or c in (' ', '_')).rstrip()
     safe_title = safe_title.replace(' ', '_')[:50] *)
Definition safe_title_of (event_title : str) : str :=
  take 50 (replace_space (rstrip (List.filter kept event_title))).

(* f"{timestamp}_{safe_title}.png" *)
Definition image_filename (timestamp event_title : str) : str :=
  timestamp ++ lit "_" ++ safe_title_of event_title ++ lit ".png".

End Image.

(* str.isalnum() on the ASCII range: digits and letters. *)
Definition ascii_isalnum (c : char) : bool :=
  ((48 <=? c) && (c <=? 57) || (65 <=? c) && (c <=? 90)
   || (97 <=? c) && (c <=? 122))%N.

(* main: the check of the environment in front of the bot. *)
Definition required_vars : list String.string :=
  ["OPENAI_API_KEY"; "TWITTER_API_KEY"; "TWITTER_API_SECRET";
   "TWITTER_ACCESS_TOKEN"; "TWITTER_ACCESS_TOKEN_SECRET";
   "TWITTER_BEARER_TOKEN"]%string.

(* os.getenv(var): None, or the value of the variable. *)
Definition getenv (environ : gmap str str) (var : String.string) : option str :=
  environ !! lit var.

(* not os.getenv(var): true for None and for the empty string. *)
Definition unset (environ : gmap str str) (var : String.string) : bool :=
  match getenv environ var with
  | None | Some [] => true
  | Some (_ :: _) => false
  end.

(* [var for var in required_vars if not os.getenv(var)] *)
Definition missing_vars (environ : gmap str str) : list String.string :=
  List.filter (unset environ) required_vars.

(* [init] is what HistoryRewrittenBot() does: it builds the clients and
   the image directory, and returns or raises. *)
Definition main (lower : str -> str) (env : oracle) (environ : gmap str str)
    (init : result unit) : M bool :=
  try_except
    (match missing_vars environ with
     | [] => lift init >> run lower env
     | missing =>
         logger ERROR ("Missing environment variables: "
                       ++ String.concat ", " missing) >>
         logger ERROR "Please check your .env file" >>
         ret false
     end)
    (fun e => logger ERROR "Application failed" >> ret false).

(* exit(0 if success else 1) *)
Definition exit_code (success : bool) : Z := if success then 0 else 1.

(* The candidate a cycle goes on with, read off the answers of the text
   generator and the verdicts of the gate: the first event when the gate
   accepts it, the second when the gate rejected the first and accepts the
   second, none otherwise. *)
Definition candidate (lower : str -> str) (env : oracle) (w : world)
  : option Event :=
  match generated env (gen_calls w) with
  | Ok e1 =>
      match gate_verdict lower e1 (file w) with
      | Ok true => Some e1
      | Ok false =>
          match generated env (S (gen_calls w)) with
          | Ok e2 =>
              match gate_verdict lower e2 (file w) with
              | Ok true => Some e2
              | _ => None
              end
          | Raise _ => None
          end
      | Raise _ => None
      end
  | Raise _ => None
  end.

(* What the record step leaves in the file, by the answer of the disk. *)
Definition file_after (env : oracle) (f : file_state) (entry : gmap str json)
  : file_state :=
  match disk env with
  | Written => Stored (loaded f ++ [entry])
  | OpenRefused => f
  | WriteBroken => Garbled
  end.

(* A lower-case hexadecimal digit. *)
Definition is_hex_digit (c : char) : bool :=
  ((48 <=? c) && (c <=? 57) || (97 <=? c) && (c <=? 102))%N.

(* A code point that str.encode('utf-8') accepts. *)
Definition encodable (c : char) : bool :=
  ((c <? 55296) || (57343 <? c) && (c <? 1114112))%N.

(* The event a stored record describes. *)
Definition event_of_record (entry : gmap str json) : Event :=
  mkEvent (text_of entry k_date) (text_of entry k_location)
          (text_of entry k_title) (text_of entry k_description)
          (text_of entry k_image_prompt).

(* What the handler of run makes of the outcome of its body. *)
Definition caught (outcome : result bool * world) : result bool * world :=
  match outcome with
  | (Ok b, w) => (Ok b, w)
  | (Raise _, w) => (Ok false, logged ERROR "Bot execution failed" w)
  end.

(* Does the disk take the write of the record step? *)
Definition write_taken (env : oracle) : bool :=
  match disk env with
  | Written => true
  | OpenRefused | WriteBroken => false
  end.

(* More sample data. *)
Module Cases.

(* Every collaborator answers, and the disk refuses the write. *)
Definition full_disk : oracle :=
  mkOracle (fun _ => Ok Sample.radio_dict)
           (fun _ _ => Ok (lit "generated_images/x.png"))
           (fun _ => Ok 7%nat) (fun _ _ => Ok (Some 9%nat))
           (lit "2025-01-01T00:00:00") OpenRefused.

End Cases.

(* Environments of the process. *)
Module Env.

Definition full : gmap str str :=
  list_to_map (map (fun var => (lit var, lit "secret")) required_vars).

(* The bearer token is set to the empty string, the API key is not set. *)
Definition blank : gmap str str :=
  <[lit "TWITTER_BEARER_TOKEN" := []]> (delete (lit "TWITTER_API_KEY") full).

End Env.

(* --------------------------------------------------------------------- *)
(* 16. Letter case beyond ASCII                                            *)
(* --------------------------------------------------------------------- *)

Module Latin1.

(* str.lower() and str.upper() on text of the Latin-1 range (code points
   below U+0100), after the Unicode character database that Python's str
   methods follow.  lower() maps A-Z and the capitals U+00C0..U+00DE
   (without the multiplication sign U+00D7) 32 places up and keeps every
   other character of the range.  upper() maps a-z and U+00E0..U+00FE
   (without the division sign U+00F7) 32 places down, the sharp s U+00DF
   to the two letters SS, the micro sign U+00B5 to the Greek capital mu
   U+039C and U+00FF to U+0178.  Code points from U+0100 on are left as
   they are, which is not what Python does with all of them: the
   functions stand for the str methods on Latin-1 text only. *)
Definition lower_char (c : char) : char :=
  if ((65 <=? c) && (c <=? 90)
      || (192 <=? c) && (c <=? 222) && negb (c =? 215))%N
  then (c + 32)%N else c.

Definition lower (s : str) : str := map lower_char s.

Definition upper_char (c : char) : str :=
  if ((97 <=? c) && (c <=? 122)
      || (224 <=? c) && (c <=? 254) && negb (c =? 247))%N
  then [(c - 32)%N]
  else if (c =? 223)%N then [83%N; 83%N]
  else if (c =? 181)%N then [924%N]
  else if (c =? 255)%N then [376%N]
  else [c].

Definition upper (s : str) : str := flat_map upper_char s.

Definition is_latin1 (s : str) : bool := forallb (fun c => (c <? 256)%N) s.

(* The event with title, description and location in capitals:
   {**event, 'title': event['title'].upper(), ...}. *)
Definition upper_event (e : Event) : Event :=
  mkEvent (date e) (upper (location e)) (upper (title e))
          (upper (description e)) (image_prompt e).

End Latin1.

(* Sample data with letters beyond ASCII. *)
Module Tram.

(* 'Straße' *)
Definition strasse : str := lit "Stra" ++ [223%N] ++ lit "e".

Definition street : Event :=
  mkEvent (lit "May 1, 1900") (lit "Wien") strasse (lit "Bahn") (lit "p").

(* The same event typed in small letters, published before. *)
Definition street_small : Event :=
  mkEvent (lit "May 1, 1900") (lit "wien") (lit "stra" ++ [223%N] ++ lit "e")
          (lit "bahn") (lit "p").

Definition street_small_hash : str := Eval vm_compute in Sample.hash_of street_small.

Definition street_record : gmap str json :=
  event_entry_of Sample.fair street_small (lit "generated_images/z.png")
    street_small_hash.

End Tram.

(* More sample data with letters beyond ASCII. *)
Module Cafe.

(* 'Café' *)
Definition opening : Event :=
  mkEvent (lit "May 1, 1900") (lit "Paris") (lit "Caf" ++ [233%N])
          (lit "ouvert") (lit "p").

(* A stored record of the same words, and the record typed otherwise. *)
Definition stored : gmap str json :=
  <[k_title := JStr (lit "caf" ++ [233%N])]>
  (<[k_description := JStr (lit "ouvert")]> ∅).

Definition stored_mixed : gmap str json :=
  <[k_title := JStr (lit "cAF" ++ [233%N])]>
  (<[k_description := JStr (lit "OUVERT")]> ∅).

End Cafe.

(* ===================================================================== *)
(* Properties                                                              *)
(* ===================================================================== *)

(* --------------------------------------------------------------------- *)
(* SHA-1 on the published test vectors                                     *)
(* --------------------------------------------------------------------- *)

Example sha1_abc :
  Sha1.hexdigest [97; 98; 99] = lit "a9993e364706816aba3e25717850c26c9cd0d89d".
Proof. vm_compute. reflexivity. Qed.

Example sha1_empty :
  Sha1.hexdigest [] = lit "da39a3ee5e6b4b0d3255bfef95601890afd80709".
Proof. vm_compute. reflexivity. Qed.

(* A message of 56 bytes, which takes two blocks. *)
Example sha1_two_blocks :
  Sha1.hexdigest
    (map Z.of_N (lit "abcdbcdecdefdefgefghfghighijhijkijkljklmklmnlmnomnopnopq"))
  = lit "84983e441c3bd26ebaae4aa1f95129e5e54670f1".
Proof. vm_compute. reflexivity. Qed.

(* --------------------------------------------------------------------- *)
(* split                                                                   *)
(* --------------------------------------------------------------------- *)

Lemma split_go_tokens (cur s : str) :
  Forall (fun c => isspace c = false) cur ->
  Forall (fun t => t <> [] /\ Forall (fun c => isspace c = false) t)
         (split_go cur s).
Proof.
  revert cur. induction s as [|c s IH]; intros cur Hcur; simpl.
  - destruct cur as [|c0 cur]; [constructor|].
    constructor; [|constructor]. split.
    + intros Hnil. apply (f_equal length) in Hnil.
      rewrite length_rev in Hnil. discriminate.
    + apply Forall_rev, Hcur.
  - destruct (isspace c) eqn:Hc.
    + destruct cur as [|c0 cur]; [apply IH; constructor|].
      constructor; [|apply IH; constructor]. split.
      * intros Hnil. apply (f_equal length) in Hnil.
        rewrite length_rev in Hnil. discriminate.
      * apply Forall_rev, Hcur.
    + apply IH. constructor; assumption.
Qed.

(* Every token is a non-empty run without white space. *)
Lemma split_tokens (s : str) :
  Forall (fun t => t <> [] /\ Forall (fun c => isspace c = false) t) (split s).
Proof. apply split_go_tokens. constructor. Qed.

Example split_sample :
  split (lit "  The  Silent" ++ [9%N; 10%N] ++ lit "Radio, 1900 ")
  = [lit "The"; lit "Silent"; lit "Radio,"; lit "1900"].
Proof. reflexivity. Qed.

(* --------------------------------------------------------------------- *)
(* format_post_text                                                        *)
(* --------------------------------------------------------------------- *)

Lemma length_lit_dots : length (lit "...") = 3%nat.
Proof. reflexivity. Qed.

Lemma length_header_of (event : Event) :
  length (header_of event)
  = (length (date event) + length (location event) + 8)%nat.
Proof.
  unfold header_of. rewrite !length_app. simpl. lia.
Qed.

Lemma length_slice_to_nonneg (s : str) (n : Z) :
  0 <= n -> (Z.of_nat (length (slice_to s n)) <= n)%Z.
Proof.
  intros Hn. unfold slice_to.
  destruct (Z.leb_spec 0 n) as [_|Hneg]; [|lia].
  rewrite length_take. lia.
Qed.

(* Where the header leaves room for the ellipsis, the text stays within
   280 characters. *)
Lemma format_post_text_short_header (event : Event) :
  (length (header_of event) <= 277)%nat ->
  (length (format_post_text event) <= 280)%nat.
Proof.
  intros Hh. unfold format_post_text.
  destruct (Nat.ltb_spec 280 (length (header_of event ++ description event)))
    as [Hlong|Hshort]; [|exact Hshort].
  rewrite !length_app, length_lit_dots.
  pose proof (length_slice_to_nonneg (description event)
                (280 - Z.of_nat (length (header_of event)) - 3)) as Hs.
  lia.
Qed.

(* A description of 300 characters under a short header: 280 characters,
   ending in the ellipsis. *)
Example format_post_text_long_description :
  length (format_post_text Sample.long_text) = 280%nat
  /\ drop 277 (format_post_text Sample.long_text) = lit "...".
Proof. vm_compute. split; reflexivity. Qed.

(** C3: the text format_post_text returns is at most 280 characters.  The
    method does not keep this: with a date of 11 characters and a location
    of 270 the header alone has 289 characters, available_chars is -12, the
    slice description[:-12] drops the last 12 characters of the description
    instead of making room, and the text returned has 292 characters. *)
Theorem format_post_text_exceeds_cap :
  length (header_of Sample.long_place ++ description Sample.long_place) = 299%nat
  /\ format_post_text Sample.long_place
     = header_of Sample.long_place ++ lit "..."
  /\ length (format_post_text Sample.long_place) = 292%nat.
Proof. vm_compute. repeat split; reflexivity. Qed.

(* --------------------------------------------------------------------- *)
(* The history store                                                       *)
(* --------------------------------------------------------------------- *)

Lemma load_history_log_eq (w : world) :
  load_history_log w
  = match file w with
    | NoFile => (Ok [], w)
    | Garbled => (Ok [], logged ERROR "Error loading history log" w)
    | Stored h => (Ok h, w)
    end.
Proof.
  unfold load_history_log, bind, path_exists, try_except, read_json.
  destruct w as [f l g i p]. cbn. destruct f; reflexivity.
Qed.

Lemma load_history_log_total (w : world) :
  exists h w', load_history_log w = (Ok h, w') /\ file w' = file w
               /\ gen_calls w' = gen_calls w /\ image_calls w' = image_calls w
               /\ posts w' = posts w.
Proof.
  rewrite load_history_log_eq.
  destruct (file w) eqn:Hf; eexists _, _; (split; [reflexivity|]);
    simpl; rewrite ?Hf; auto.
Qed.

(** C8: load_history_log returns the empty list when history_log.json does
    not exist, returns the empty list after logging the error when the file
    is there but cannot be read or parsed, and in no state of the world
    raises: it always returns a list and leaves the file as it was. *)
Theorem load_history_log_never_fails :
  forall (l : list (level * String.string)) (g i : nat) (p : list (str * str)),
    load_history_log (mkWorld NoFile l g i p) = (Ok [], mkWorld NoFile l g i p)
    /\ load_history_log (mkWorld Garbled l g i p)
       = (Ok [], mkWorld Garbled (l ++ [(ERROR, "Error loading history log"%string)])
                         g i p)
    /\ (forall w : world,
          exists h w', load_history_log w = (Ok h, w') /\ file w' = file w).
Proof.
  intros l g i p. split; [reflexivity|]. split; [reflexivity|].
  intros w. destruct (load_history_log_total w) as (h & w' & H & Hf & _).
  eauto.
Qed.

Lemma save_history_log_written (env : oracle) (h : list (gmap str json)) (w : world) :
  disk env = Written ->
  save_history_log env h w = (Ok tt, set_file (Stored h) w).
Proof.
  intros Hd. unfold save_history_log, try_except, write_json.
  rewrite Hd. reflexivity.
Qed.

(* The only outcomes of save_history_log. *)
Lemma save_history_log_cases (env : oracle) (h : list (gmap str json)) (w : world) :
  match disk env with
  | Written => save_history_log env h w = (Ok tt, set_file (Stored h) w)
  | OpenRefused =>
      save_history_log env h w
      = (Raise OSError, logged ERROR "Error saving history log" w)
  | WriteBroken =>
      save_history_log env h w
      = (Raise OSError, logged ERROR "Error saving history log" (set_file Garbled w))
  end.
Proof.
  unfold save_history_log, try_except, write_json.
  destruct (disk env); reflexivity.
Qed.

(** C7: when the write goes through, load_history_log right after the
    record step (load, append, save) returns the list that
    load_history_log returned before with the new entry at its end: one
    longer, the entry last, the earlier entries in their order.  This holds
    from every state of the file: missing, unreadable, or holding a list. *)
Theorem load_after_append_and_save
    (env : oracle) (w : world) (entry : gmap str json) :
  disk env = Written ->
  exists (old : list (gmap str json)) (w1 w2 w3 : world),
    load_history_log w = (Ok old, w1)
    /\ append_and_save env entry w = (Ok tt, w2)
    /\ load_history_log w2 = (Ok (old ++ [entry]), w3)
    /\ length (old ++ [entry]) = S (length old)
    /\ last (old ++ [entry]) = Some entry
    /\ take (length old) (old ++ [entry]) = old.
Proof.
  intros Hd.
  destruct (load_history_log_total w) as (old & w1 & Hload & _).
  exists old, w1, (set_file (Stored (old ++ [entry])) w1),
         (set_file (Stored (old ++ [entry])) w1).
  split; [exact Hload|]. split.
  { unfold append_and_save, bind. rewrite Hload.
    apply save_history_log_written, Hd. }
  split; [rewrite load_history_log_eq; reflexivity|].
  split; [rewrite length_app; simpl; lia|].
  split; [apply last_snoc|].
  rewrite take_app_length. reflexivity.
Qed.

Lemma load_after_append_and_save_witness :
  exists (old : list (gmap str json)) (w1 w2 w3 : world),
    load_history_log Sample.fresh = (Ok old, w1)
    /\ append_and_save Sample.fair Sample.partial Sample.fresh = (Ok tt, w2)
    /\ load_history_log w2 = (Ok (old ++ [Sample.partial]), w3)
    /\ length (old ++ [Sample.partial]) = S (length old)
    /\ last (old ++ [Sample.partial]) = Some Sample.partial
    /\ take (length old) (old ++ [Sample.partial]) = old.
Proof.
  exact (load_after_append_and_save Sample.fair Sample.fresh Sample.partial
           eq_refl).
Defined.

Lemma append_and_save_stored (env : oracle) (w : world) (entry : gmap str json) :
  disk env = Written ->
  exists w', append_and_save env entry w = (Ok tt, w')
    /\ file w' = Stored (match file w with Stored h => h | _ => [] end ++ [entry]).
Proof.
  intros Hd. unfold append_and_save, bind. rewrite load_history_log_eq.
  destruct (file w); rewrite save_history_log_written by exact Hd;
    eexists; split; reflexivity.
Qed.

Lemma append_all_stored (env : oracle) (entries : list (gmap str json)) :
  disk env = Written ->
  forall (w : world) (h : list (gmap str json)),
    file w = Stored h ->
    exists w', append_all env entries w = (Ok tt, w')
               /\ file w' = Stored (h ++ entries).
Proof.
  intros Hd. induction entries as [|entry rest IH]; intros w h Hf.
  - exists w. split; [reflexivity|]. rewrite app_nil_r. exact Hf.
  - destruct (append_and_save_stored env w entry Hd) as (w1 & H1 & Hf1).
    rewrite Hf in Hf1.
    destruct (IH w1 _ Hf1) as (w2 & H2 & Hf2).
    exists w2. split.
    + simpl. unfold bind. rewrite H1. exact H2.
    + rewrite Hf2, <- app_assoc. reflexivity.
Qed.

(* --------------------------------------------------------------------- *)
(* The novelty gate                                                        *)
(* --------------------------------------------------------------------- *)

Lemma jaccard_similarity (a b : gset str) : similarity a b = jaccard a b.
Proof.
  unfold similarity, jaccard.
  destruct (Nat.ltb_spec 0 (size (a ∪ b))) as [Hpos|Hzero].
  - rewrite bool_decide_eq_false_2; [reflexivity|].
    intros [-> ->]. rewrite union_empty_l_L, size_empty in Hpos. lia.
  - rewrite bool_decide_eq_true_2; [reflexivity|].
    assert (a ∪ b = ∅) as Hu by (apply leibniz_equiv, size_empty_iff; lia).
    apply empty_union_L in Hu. exact Hu.
Qed.

(* Two empty token sets have similarity 0. *)
Lemma similarity_empty : similarity ∅ ∅ = PrimFloat.zero.
Proof. rewrite jaccard_similarity. reflexivity. Qed.

Lemma hash_pass_elem (history_log : list (gmap str json)) (new_hash : str) :
  hash_pass history_log new_hash = true
  <-> exists entry, entry ∈ history_log /\ entry !! k_hash = Some (JStr new_hash).
Proof.
  unfold hash_pass. rewrite existsb_exists. split.
  - intros (entry & Hin & Heq). exists entry. split; [apply list_elem_of_In, Hin|].
    unfold hash_equal in Heq.
    destruct (entry !! k_hash) as [[]|]; try discriminate.
    unfold str_eqb in Heq. apply bool_decide_eq_true_1 in Heq. congruence.
  - intros (entry & Hin & Heq). exists entry. split; [apply list_elem_of_In, Hin|].
    unfold hash_equal. rewrite Heq. apply bool_decide_eq_true_2. reflexivity.
Qed.

Section GateFacts.

Variable lower : str -> str.

Lemma existing_words_of_partial (entry : gmap str json) :
  partial_record entry = true ->
  existing_words_of lower entry = Ok (record_words lower entry).
Proof.
  unfold partial_record, existing_words_of, record_words, words_of, text_of, get.
  destruct (entry !! k_title) as [[]|]; try discriminate;
    destruct (entry !! k_description) as [[]|]; try discriminate;
    destruct (entry !! k_location) as [[]|]; try discriminate;
    reflexivity.
Qed.

(* On partial records the second loop never raises, and its answer is
   whether some entry exceeds the threshold. *)
Lemma similarity_pass_partial (new_words : gset str) (threshold : float)
    (history_log : list (gmap str json)) :
  forallb partial_record history_log = true ->
  similarity_pass lower new_words threshold history_log
  = Ok (negb (existsb
               (fun entry => PrimFloat.ltb threshold
                               (similarity new_words (record_words lower entry)))
               history_log)).
Proof.
  induction history_log as [|entry rest IH]; intros Hwf; [reflexivity|].
  simpl in Hwf. apply andb_prop in Hwf as [He Hrest].
  simpl. rewrite (existing_words_of_partial entry He). simpl.
  destruct (PrimFloat.ltb threshold _); [reflexivity|].
  apply IH, Hrest.
Qed.

(* check_uniqueness, step by step, from what load_history_log returns. *)
Lemma check_uniqueness_eq (new_event : Event) (threshold : float)
    (w w1 : world) (history_log : list (gmap str json)) (new_hash : str) :
  load_history_log w = (Ok history_log, w1) ->
  calculate_content_hash new_event = Ok new_hash ->
  check_uniqueness lower new_event threshold w
  = if hash_pass history_log new_hash
    then (Ok false, logged INFO "Event rejected: exact hash match found" w1)
    else match similarity_pass lower (new_words_of lower new_event)
                 threshold history_log with
         | Ok true => (Ok true, logged INFO "Event passed uniqueness check" w1)
         | Ok false =>
             (Ok false,
              logged INFO "Event rejected: high similarity with existing post" w1)
         | Raise e => (Raise e, w1)
         end.
Proof.
  intros Hload Hhash. unfold check_uniqueness, bind, lift.
  rewrite Hload, Hhash.
  destruct (hash_pass history_log new_hash); [reflexivity|].
  destruct (similarity_pass _ _ _ _) as [[]|]; reflexivity.
Qed.

End GateFacts.

(** C2: when the fingerprint of the candidate equals the 'hash' of a record
    of the history, check_uniqueness returns False, whatever the threshold
    and whatever else the records hold. *)
Theorem exact_match_rejected
    (lower : str -> str) (new_event : Event) (threshold : float)
    (w w1 : world) (history_log : list (gmap str json))
    (new_hash : str) (entry : gmap str json) :
  load_history_log w = (Ok history_log, w1) ->
  calculate_content_hash new_event = Ok new_hash ->
  entry ∈ history_log ->
  entry !! k_hash = Some (JStr new_hash) ->
  exists w', check_uniqueness lower new_event threshold w = (Ok false, w')
             /\ file w' = file w.
Proof.
  intros Hload Hhash Hin Hentry.
  rewrite (check_uniqueness_eq lower _ _ _ _ _ _ Hload Hhash).
  assert (hash_pass history_log new_hash = true) as ->
    by (apply hash_pass_elem; eauto).
  eexists. split; [reflexivity|].
  destruct (load_history_log_total w) as (h & w' & Hl & Hf & _).
  rewrite Hload in Hl. injection Hl as _ <-. exact Hf.
Qed.

Lemma exact_match_rejected_witness :
  exists w', check_uniqueness ascii_lower Sample.radio default_threshold
               (Sample.world_with [Sample.partial; Sample.radio_record])
             = (Ok false, w')
             /\ file w' = file (Sample.world_with [Sample.partial; Sample.radio_record]).
Proof.
  apply (exact_match_rejected ascii_lower Sample.radio default_threshold
           (Sample.world_with [Sample.partial; Sample.radio_record])
           (Sample.world_with [Sample.partial; Sample.radio_record])
           [Sample.partial; Sample.radio_record]
           Sample.radio_hash Sample.radio_record).
  - reflexivity.
  - vm_compute. reflexivity.
  - apply list_elem_of_further, list_elem_of_here.
  - vm_compute. reflexivity.
Defined.

(* On an empty history nothing can match. *)
Example accepted_on_empty_history :
  check_uniqueness ascii_lower Sample.xyz default_threshold (Sample.world_with [])
  = (Ok true, logged INFO "Event passed uniqueness check" (Sample.world_with []))
  /\ check_uniqueness ascii_lower Sample.xyz default_threshold Sample.fresh
     = (Ok true, logged INFO "Event passed uniqueness check" Sample.fresh).
Proof. vm_compute. split; reflexivity. Qed.

(** C1: for a history of records whose text fields are str or missing and
    a candidate whose fingerprint matches no record, check_uniqueness
    returns False exactly when some record has a Jaccard similarity with
    the candidate above the threshold, where a token set is the set of the
    lower-cased whitespace-split tokens of the title, of the description
    and of the location, each split on its own, and the similarity of two
    empty sets is 0. *)
Theorem rejected_iff_similar_record
    (lower : str -> str) (new_event : Event) (threshold : float)
    (w w1 : world) (history_log : list (gmap str json)) (new_hash : str) :
  load_history_log w = (Ok history_log, w1) ->
  forallb partial_record history_log = true ->
  calculate_content_hash new_event = Ok new_hash ->
  hash_pass history_log new_hash = false ->
  (fst (check_uniqueness lower new_event threshold w) = Ok false
   <-> exists entry,
         entry ∈ history_log
         /\ PrimFloat.ltb threshold
              (jaccard (words_of lower (title new_event) (description new_event)
                                 (location new_event))
                       (words_of lower (text_of entry k_title)
                                 (text_of entry k_description)
                                 (text_of entry k_location))) = true)
  /\ (fst (check_uniqueness lower new_event threshold w) = Ok true
      \/ fst (check_uniqueness lower new_event threshold w) = Ok false)
  /\ jaccard ∅ ∅ = PrimFloat.zero.
Proof.
  intros Hload Hwf Hhash Hno.
  rewrite (check_uniqueness_eq lower _ _ _ _ _ _ Hload Hhash), Hno.
  rewrite (similarity_pass_partial lower _ _ _ Hwf).
  fold (new_words_of lower new_event).
  set (hit := existsb _ history_log).
  assert (hit = true <->
          exists entry, entry ∈ history_log
            /\ PrimFloat.ltb threshold
                 (jaccard (new_words_of lower new_event)
                          (words_of lower (text_of entry k_title)
                                    (text_of entry k_description)
                                    (text_of entry k_location))) = true) as Hhit.
  { unfold hit. rewrite existsb_exists. split.
    - intros (entry & Hin & Hlt). exists entry.
      split; [apply list_elem_of_In, Hin|].
      rewrite <- jaccard_similarity. exact Hlt.
    - intros (entry & Hin & Hlt). exists entry.
      split; [apply list_elem_of_In, Hin|].
      unfold record_words. rewrite jaccard_similarity. exact Hlt. }
  split; [|split; [|reflexivity]].
  - rewrite <- Hhit. destruct hit; simpl; split; congruence.
  - destruct hit; simpl; auto.
Qed.

Lemma rejected_iff_similar_record_witness :
  (fst (check_uniqueness ascii_lower Sample.radio_upper default_threshold
          (Sample.world_with [Sample.radio_record])) = Ok false
   <-> exists entry,
         entry ∈ [Sample.radio_record]
         /\ PrimFloat.ltb default_threshold
              (jaccard (words_of ascii_lower (title Sample.radio_upper)
                                 (description Sample.radio_upper)
                                 (location Sample.radio_upper))
                       (words_of ascii_lower (text_of entry k_title)
                                 (text_of entry k_description)
                                 (text_of entry k_location))) = true)
  /\ (fst (check_uniqueness ascii_lower Sample.radio_upper default_threshold
             (Sample.world_with [Sample.radio_record])) = Ok true
      \/ fst (check_uniqueness ascii_lower Sample.radio_upper default_threshold
                (Sample.world_with [Sample.radio_record])) = Ok false)
  /\ jaccard ∅ ∅ = PrimFloat.zero.
Proof.
  apply (rejected_iff_similar_record ascii_lower Sample.radio_upper
           default_threshold (Sample.world_with [Sample.radio_record])
           (Sample.world_with [Sample.radio_record]) [Sample.radio_record]
           (Sample.hash_of Sample.radio_upper)).
  - reflexivity.
  - vm_compute. reflexivity.
  - vm_compute. reflexivity.
  - vm_compute. reflexivity.
Defined.

(* The sample in capitals is caught by the second loop, not by the first. *)
Example radio_upper_rejected_by_similarity :
  hash_pass [Sample.radio_record] (Sample.hash_of Sample.radio_upper) = false
  /\ check_uniqueness ascii_lower Sample.radio_upper default_threshold
       (Sample.world_with [Sample.radio_record])
     = (Ok false,
        logged INFO "Event rejected: high similarity with existing post"
               (Sample.world_with [Sample.radio_record])).
Proof. vm_compute. split; reflexivity. Qed.

(** C1, as stated: with the token set taken from the concatenation
    title + description + location, the equivalence fails.  The candidate
    (title Radio, description silence, location Paris) and the stored record
    (title Radiosilence, empty description, location Paris) concatenate to
    the same string, so their token sets by concatenation are equal and
    the similarity is 1; check_uniqueness splits each field on its own,
    finds the similarity 1/4 and returns True. *)
Lemma concatenation_tokens_disagree :
  let w := Sample.world_with [Sample.joined_record] in
  let new_event := Sample.split_title in
  load_history_log w = (Ok [Sample.joined_record], w)
  /\ forallb partial_record [Sample.joined_record] = true
  /\ hash_pass [Sample.joined_record] (Sample.hash_of new_event) = false
  /\ calculate_content_hash new_event = Ok (Sample.hash_of new_event)
  /\ fst (check_uniqueness ascii_lower new_event default_threshold w) = Ok true
  /\ ~ (fst (check_uniqueness ascii_lower new_event default_threshold w) = Ok false
        <-> exists entry,
              entry ∈ [Sample.joined_record]
              /\ PrimFloat.ltb default_threshold
                   (jaccard (concat_tokens ascii_lower (title new_event)
                               (description new_event) (location new_event))
                            (concat_tokens ascii_lower (text_of entry k_title)
                               (text_of entry k_description)
                               (text_of entry k_location))) = true).
Proof.
  cbv zeta.
  assert (fst (check_uniqueness ascii_lower Sample.split_title default_threshold
                 (Sample.world_with [Sample.joined_record])) = Ok true) as Hrun
    by (vm_compute; reflexivity).
  split; [reflexivity|]. split; [vm_compute; reflexivity|].
  split; [vm_compute; reflexivity|]. split; [vm_compute; reflexivity|].
  split; [exact Hrun|].
  intros [_ Hback]. rewrite Hrun in Hback.
  enough (Ok true = Ok false :> result bool) by discriminate.
  apply Hback. exists Sample.joined_record.
  split; [apply list_elem_of_here|]. vm_compute. reflexivity.
Qed.

Lemma default_threshold_exact :
  forallb threshold_exact_row (seq 1 256) = true.
Proof. vm_compute. reflexivity. Qed.

Lemma default_threshold_exact_at (intersection union : nat) :
  (0 < union <= 256)%nat -> (intersection <= union)%nat ->
  PrimFloat.ltb default_threshold (truediv intersection union)
  = (7 * Z.of_nat union <? 10 * Z.of_nat intersection).
Proof.
  intros Hu Hi. pose proof default_threshold_exact as H.
  rewrite forallb_forall in H.
  specialize (H union). unfold threshold_exact_row in H.
  rewrite forallb_forall in H.
  apply Bool.eqb_prop, H.
  - apply in_seq. lia.
  - apply in_seq. lia.
Qed.

(* Eight shared tokens out of ten: rejected at 0.7, accepted at 0.9. *)
Example eight_of_ten :
  PrimFloat.ltb default_threshold (truediv 8 10) = true
  /\ PrimFloat.ltb 0x1.ccccccccccccdp-1%float (truediv 8 10) = false
  /\ PrimFloat.ltb default_threshold (truediv 7 10) = false.
Proof. vm_compute. repeat split; reflexivity. Qed.

(* --------------------------------------------------------------------- *)
(* Partial records                                                         *)
(* --------------------------------------------------------------------- *)

Lemma lit_keys_distinct :
  k_title <> k_description /\ k_title <> k_location
  /\ k_description <> k_location.
Proof. repeat split; discriminate. Qed.

Lemma text_of_insert_empty (entry : gmap str json) (key key' : str) :
  entry !! key = None ->
  text_of (<[key := JStr []]> entry) key' = text_of entry key'.
Proof.
  intros Hnone. unfold text_of.
  destruct (decide (key = key')) as [<-|Hne].
  - rewrite lookup_insert_eq, Hnone. reflexivity.
  - rewrite lookup_insert_ne by exact Hne. reflexivity.
Qed.

Lemma partial_record_insert_empty (entry : gmap str json) (key : str) :
  partial_record entry = true ->
  partial_record (<[key := JStr []]> entry) = true.
Proof.
  unfold partial_record. intros H.
  apply andb_prop in H as [H Hl]. apply andb_prop in H as [Ht Hd].
  assert (forall k, text_or_missing (entry !! k) = true ->
                    text_or_missing (<[key := JStr []]> entry !! k) = true) as Hk.
  { intros k Hv. destruct (decide (key = k)) as [<-|Hne].
    - rewrite lookup_insert_eq. reflexivity.
    - rewrite lookup_insert_ne by exact Hne. exact Hv. }
  rewrite !Hk by assumption. reflexivity.
Qed.

(** C9: a stored record that lacks its title, its description or its
    location does not make check_uniqueness fail.  When each of the three
    fields of every record is missing or a str, check_uniqueness returns a
    verdict; the token set of every record is built with the empty string
    in place of a missing field; and a record with a field missing has the
    token set of the same record with that field set to the empty string. *)
Theorem partial_records_do_not_fail
    (lower : str -> str) (new_event : Event) (threshold : float)
    (w w1 : world) (history_log : list (gmap str json)) (new_hash : str) :
  load_history_log w = (Ok history_log, w1) ->
  forallb partial_record history_log = true ->
  calculate_content_hash new_event = Ok new_hash ->
  (exists (verdict : bool) (w' : world),
      check_uniqueness lower new_event threshold w = (Ok verdict, w'))
  /\ (forall entry, entry ∈ history_log ->
        existing_words_of lower entry
        = Ok (words_of lower (text_of entry k_title) (text_of entry k_description)
                       (text_of entry k_location)))
  /\ (forall entry key, entry ∈ history_log ->
        entry !! key = None ->
        existing_words_of lower entry
        = existing_words_of lower (<[key := JStr []]> entry)).
Proof.
  intros Hload Hwf Hhash. split; [|split].
  - rewrite (check_uniqueness_eq lower _ _ _ _ _ _ Hload Hhash).
    rewrite (similarity_pass_partial lower _ _ _ Hwf).
    destruct (hash_pass history_log new_hash); [eauto|].
    destruct (negb _); eauto.
  - intros entry Hin. apply existing_words_of_partial.
    rewrite forallb_forall in Hwf. apply Hwf, list_elem_of_In, Hin.
  - intros entry key Hin Hnone.
    assert (partial_record entry = true) as Hp
      by (rewrite forallb_forall in Hwf; apply Hwf, list_elem_of_In, Hin).
    rewrite (existing_words_of_partial lower entry Hp).
    rewrite (existing_words_of_partial lower _
               (partial_record_insert_empty entry key Hp)).
    unfold record_words. rewrite !text_of_insert_empty by exact Hnone.
    reflexivity.
Qed.

Lemma partial_records_do_not_fail_witness :
  (exists (verdict : bool) (w' : world),
      check_uniqueness ascii_lower Sample.radio default_threshold
        (Sample.world_with [Sample.partial]) = (Ok verdict, w'))
  /\ (forall entry, entry ∈ [Sample.partial] ->
        existing_words_of ascii_lower entry
        = Ok (words_of ascii_lower (text_of entry k_title)
                       (text_of entry k_description) (text_of entry k_location)))
  /\ (forall entry key, entry ∈ [Sample.partial] ->
        entry !! key = None ->
        existing_words_of ascii_lower entry
        = existing_words_of ascii_lower (<[key := JStr []]> entry)).
Proof.
  apply (partial_records_do_not_fail ascii_lower Sample.radio default_threshold
           (Sample.world_with [Sample.partial]) (Sample.world_with [Sample.partial])
           [Sample.partial] Sample.radio_hash).
  - reflexivity.
  - vm_compute. reflexivity.
  - vm_compute. reflexivity.
Defined.

(* The record that kept only its title is compared on its title alone. *)
Example partial_record_compared :
  existing_words_of ascii_lower Sample.partial
  = Ok (list_to_set [lit "the"; lit "silent"; lit "radio"])
  /\ check_uniqueness ascii_lower Sample.radio default_threshold
       (Sample.world_with [Sample.partial])
     = (Ok true, logged INFO "Event passed uniqueness check"
                        (Sample.world_with [Sample.partial])).
Proof. vm_compute. split; reflexivity. Qed.

(* A field that is present and is not a str is another matter: lower() is
   looked up on it and the check raises. *)
Example non_text_field_raises :
  check_uniqueness ascii_lower Sample.radio default_threshold
    (Sample.world_with [Sample.broken])
  = (Raise AttributeError, Sample.world_with [Sample.broken]).
Proof. vm_compute. reflexivity. Qed.

(* --------------------------------------------------------------------- *)
(* Letter case                                                             *)
(* --------------------------------------------------------------------- *)

Lemma ascii_lower_upper (s : str) : ascii_lower (ascii_upper s) = ascii_lower s.
Proof.
  unfold ascii_lower, ascii_upper. rewrite map_map. apply map_ext.
  intros c. unfold ascii_lower_char, ascii_upper_char, char in *.
  repeat (match goal with
          | |- context [(?a <=? ?b)%N] => destruct (N.leb_spec a b)
          end; cbn [andb] in * );
    try reflexivity; lia.
Qed.

Lemma ascii_lower_swapcase (s : str) :
  ascii_lower (ascii_swapcase s) = ascii_lower s.
Proof.
  unfold ascii_lower, ascii_swapcase. rewrite map_map. apply map_ext.
  intros c. unfold ascii_lower_char, ascii_swapcase_char, char in *.
  repeat (match goal with
          | |- context [(?a <=? ?b)%N] => destruct (N.leb_spec a b)
          end; cbn [andb] in * );
    try reflexivity; lia.
Qed.

Lemma ascii_lower_lower (s : str) : ascii_lower (ascii_lower s) = ascii_lower s.
Proof.
  unfold ascii_lower. rewrite map_map. apply map_ext.
  intros c. unfold ascii_lower_char, char in *.
  repeat (match goal with
          | |- context [(?a <=? ?b)%N] => destruct (N.leb_spec a b)
          end; cbn [andb] in * );
    try reflexivity; lia.
Qed.

(* upper(), lower() and swapcase() of ASCII text change the case of ASCII
   letters only. *)
Lemma ascii_recased_upper (s : str) : ascii_recased s (ascii_upper s).
Proof. unfold ascii_recased. symmetry. apply ascii_lower_upper. Qed.

Lemma ascii_recased_lower (s : str) : ascii_recased s (ascii_lower s).
Proof. unfold ascii_recased. symmetry. apply ascii_lower_lower. Qed.

Lemma ascii_recased_swapcase (s : str) : ascii_recased s (ascii_swapcase s).
Proof. unfold ascii_recased. symmetry. apply ascii_lower_swapcase. Qed.

(* What ascii_recased says place by place. *)
Lemma ascii_lower_char_eq (c c' : char) :
  ascii_lower_char c = ascii_lower_char c'
  <-> c = c'
      \/ ((65 <= c <= 90)%N /\ c' = (c + 32)%N)
      \/ ((65 <= c' <= 90)%N /\ c = (c' + 32)%N).
Proof.
  unfold ascii_lower_char, char in *.
  repeat (match goal with
          | |- context [(?a <=? ?b)%N] => destruct (N.leb_spec a b)
          end; cbn [andb] in * );
    lia.
Qed.

Lemma ascii_recased_pointwise (s s' : str) :
  ascii_recased s s'
  <-> Forall2 (fun c c' => c = c'
                           \/ ((65 <= c <= 90)%N /\ c' = (c + 32)%N)
                           \/ ((65 <= c' <= 90)%N /\ c = (c' + 32)%N)) s s'.
Proof.
  unfold ascii_recased, ascii_lower. revert s'.
  induction s as [|c s IH]; intros [|c' s']; simpl; split; intros H;
    try discriminate H; try (inversion H; fail); try constructor.
  - apply ascii_lower_char_eq. congruence.
  - apply IH. congruence.
  - inversion H as [|? ? ? ? Hc Hs]; subst.
    apply ascii_lower_char_eq in Hc. apply IH in Hs. congruence.
Qed.

(* The Latin-1 lower() lower-cases ASCII letters wherever they stand. *)
Lemma Latin1_lower_ascii (s : str) :
  Latin1.lower (ascii_lower s) = Latin1.lower s.
Proof.
  unfold Latin1.lower, ascii_lower. rewrite map_map. apply map_ext.
  intros c. unfold Latin1.lower_char, ascii_lower_char, char in *.
  repeat (match goal with
          | |- context [(?a <=? ?b)%N] => destruct (N.leb_spec a b)
          | |- context [(?a =? ?b)%N] => destruct (N.eqb_spec a b)
          end; cbn [andb orb negb] in * );
    try reflexivity; lia.
Qed.

(* upper() of Latin-1 text keeps what lower() returns, except for the
   sharp s and the micro sign (and U+00FF, which upper() takes out of the
   range). *)
Lemma Latin1_lower_upper_char (c : char) :
  (c < 256)%N -> c <> 223%N -> c <> 181%N -> c <> 255%N ->
  Latin1.lower (Latin1.upper_char c) = [Latin1.lower_char c].
Proof.
  intros Hc H1 H2 H3.
  unfold Latin1.lower, Latin1.upper_char, Latin1.lower_char, char in *.
  repeat (match goal with
          | |- context [(?a <=? ?b)%N] => destruct (N.leb_spec a b)
          | |- context [(?a =? ?b)%N] => destruct (N.eqb_spec a b)
          end; cbn [andb orb negb map] in * );
    try reflexivity; try lia; f_equal; lia.
Qed.

Lemma Latin1_lower_upper (s : str) :
  Forall (fun c => (c < 256)%N /\ c <> 223%N /\ c <> 181%N /\ c <> 255%N) s ->
  Latin1.lower (Latin1.upper s) = Latin1.lower s.
Proof.
  induction 1 as [|c s (Hc & H1 & H2 & H3) _ IH]; [reflexivity|].
  change (Latin1.upper (c :: s)) with (Latin1.upper_char c ++ Latin1.upper s).
  change (Latin1.lower (c :: s)) with (Latin1.lower_char c :: Latin1.lower s).
  unfold Latin1.lower at 1. rewrite map_app.
  change (Latin1.lower (Latin1.upper_char c) ++ Latin1.lower (Latin1.upper s)
          = Latin1.lower_char c :: Latin1.lower s).
  rewrite (Latin1_lower_upper_char c Hc H1 H2 H3), IH. reflexivity.
Qed.

Section CaseFacts.

Variable lower : str -> str.

Lemma lowers_alike_lower (s s' : str) :
  (forall t, lower (ascii_lower t) = lower t) ->
  lowers_alike lower s s' -> lower s = lower s'.
Proof.
  intros Hlower [H|H]; [|exact H].
  rewrite <- (Hlower s), <- (Hlower s').
  unfold ascii_recased in H. rewrite H. reflexivity.
Qed.

Lemma new_words_of_alike (e e' : Event) :
  (forall t, lower (ascii_lower t) = lower t) ->
  event_lowers_alike lower e e' -> new_words_of lower e = new_words_of lower e'.
Proof.
  intros Hlower (Ht & Hd & Hl). unfold new_words_of, words_of.
  rewrite (lowers_alike_lower _ _ Hlower Ht), (lowers_alike_lower _ _ Hlower Hd),
          (lowers_alike_lower _ _ Hlower Hl).
  reflexivity.
Qed.

Lemma lower_of_get_alike (r r' : gmap str json) (key : str) :
  (forall t, lower (ascii_lower t) = lower t) ->
  field_lowers_alike lower (r !! key) (r' !! key) ->
  lower_of lower (get r key (JStr [])) = lower_of lower (get r' key (JStr [])).
Proof.
  intros Hlower. unfold field_lowers_alike, get.
  destruct (r !! key) as [[]|], (r' !! key) as [[]|];
    intros H; try discriminate H; try (injection H as H; subst);
    simpl; try reflexivity.
  f_equal. apply lowers_alike_lower; assumption.
Qed.

Lemma existing_words_of_alike (r r' : gmap str json) :
  (forall t, lower (ascii_lower t) = lower t) ->
  record_lowers_alike lower r r' ->
  existing_words_of lower r = existing_words_of lower r'.
Proof.
  intros Hlower (Ht & Hd & Hl). unfold existing_words_of.
  rewrite (lower_of_get_alike r r' k_title Hlower Ht),
          (lower_of_get_alike r r' k_description Hlower Hd),
          (lower_of_get_alike r r' k_location Hlower Hl).
  reflexivity.
Qed.

Lemma similarity_pass_alike (new_words : gset str) (threshold : float)
    (h h' : list (gmap str json)) :
  (forall t, lower (ascii_lower t) = lower t) ->
  Forall2 (record_lowers_alike lower) h h' ->
  similarity_pass lower new_words threshold h
  = similarity_pass lower new_words threshold h'.
Proof.
  intros Hlower.
  induction 1 as [|r r' h h' Hr _ IH]; [reflexivity|].
  simpl. rewrite (existing_words_of_alike r r' Hlower Hr).
  destruct (existing_words_of lower r') as [ws|]; simpl; [|reflexivity].
  rewrite IH. reflexivity.
Qed.

End CaseFacts.

(* The first loop tells the cases apart: the sample and the sample in
   capitals have different fingerprints. *)
Example hash_pass_is_case_sensitive :
  calculate_content_hash Sample.radio <> calculate_content_hash Sample.radio_upper
  /\ hash_pass [Sample.radio_record] Sample.radio_hash = true
  /\ hash_pass [Sample.radio_record] (Sample.hash_of Sample.radio_upper) = false.
Proof.
  split; [vm_compute; discriminate|]. split; vm_compute; reflexivity.
Qed.

(** C10: the similarity that check_uniqueness computes sees the title, the
    description and the location of either side only through lower().
    Let lower() lower-case the ASCII letters of a text wherever they stand,
    as Python's does.  For a candidate and a history whose text fields are
    changed in the case of ASCII letters, or in any way that leaves the
    result of lower() the same: the token sets are the same, the similarity
    with each stored record is the same, the second loop gives the same
    answer at every threshold, and when the first loop finds no equal hash
    on either side check_uniqueness returns the same verdict.  The first
    loop does tell such events apart: there are an event, the same event in
    capitals and a history for which it answers differently. *)
Theorem similarity_follows_lowered_text
    (lower : str -> str) (e e' : Event) (h h' : list (gmap str json)) :
  (forall s, lower (ascii_lower s) = lower s) ->
  event_lowers_alike lower e e' ->
  Forall2 (record_lowers_alike lower) h h' ->
  new_words_of lower e = new_words_of lower e'
  /\ Forall2 (fun r r' => existing_words_of lower r = existing_words_of lower r')
             h h'
  /\ Forall2 (fun r r' => similarity_with lower e r = similarity_with lower e' r')
             h h'
  /\ (forall threshold,
        similarity_pass lower (new_words_of lower e) threshold h
        = similarity_pass lower (new_words_of lower e') threshold h')
  /\ (forall threshold w w' new_hash new_hash',
        file w = Stored h ->
        file w' = Stored h' ->
        calculate_content_hash e = Ok new_hash ->
        calculate_content_hash e' = Ok new_hash' ->
        hash_pass h new_hash = false ->
        hash_pass h' new_hash' = false ->
        fst (check_uniqueness lower e threshold w)
        = fst (check_uniqueness lower e' threshold w'))
  /\ (exists a a' new_hash new_hash' history_log,
        event_lowers_alike lower a a'
        /\ calculate_content_hash a = Ok new_hash
        /\ calculate_content_hash a' = Ok new_hash'
        /\ hash_pass history_log new_hash = true
        /\ hash_pass history_log new_hash' = false).
Proof.
  intros Hlower He Hh.
  assert (new_words_of lower e = new_words_of lower e') as Hnew
    by (apply new_words_of_alike; assumption).
  assert (forall threshold,
            similarity_pass lower (new_words_of lower e) threshold h
            = similarity_pass lower (new_words_of lower e') threshold h') as Hpass
    by (intros threshold; rewrite Hnew; apply similarity_pass_alike; assumption).
  split; [exact Hnew|]. split.
  { eapply Forall2_impl; [exact Hh|].
    intros r r' Hr. apply existing_words_of_alike; assumption. }
  split.
  { eapply Forall2_impl; [exact Hh|].
    intros r r' Hr. unfold similarity_with.
    rewrite Hnew, (existing_words_of_alike lower r r' Hlower Hr). reflexivity. }
  split; [exact Hpass|]. split.
  - intros threshold w w' new_hash new_hash' Hw Hw' Hhash Hhash' Hno Hno'.
    assert (load_history_log w = (Ok h, w)) as Hl
      by (rewrite load_history_log_eq, Hw; reflexivity).
    assert (load_history_log w' = (Ok h', w')) as Hl'
      by (rewrite load_history_log_eq, Hw'; reflexivity).
    rewrite (check_uniqueness_eq lower _ _ _ _ _ _ Hl Hhash), Hno.
    rewrite (check_uniqueness_eq lower _ _ _ _ _ _ Hl' Hhash'), Hno'.
    rewrite (Hpass threshold).
    destruct (similarity_pass lower (new_words_of lower e') threshold h')
      as [[]|]; reflexivity.
  - exists Sample.radio, Sample.radio_upper, Sample.radio_hash,
      (Sample.hash_of Sample.radio_upper), [Sample.radio_record].
    split.
    { unfold event_lowers_alike, Sample.radio_upper, title, description,
        location.
      repeat split; left; apply ascii_recased_upper. }
    split; [vm_compute; reflexivity|]. split; [vm_compute; reflexivity|].
    split; vm_compute; reflexivity.
Qed.

Lemma similarity_follows_lowered_text_witness :
  new_words_of Latin1.lower Cafe.opening
  = new_words_of Latin1.lower (Latin1.upper_event Cafe.opening)
  /\ similarity_with Latin1.lower Cafe.opening Cafe.stored
     = similarity_with Latin1.lower (Latin1.upper_event Cafe.opening)
         Cafe.stored_mixed
  /\ fst (check_uniqueness Latin1.lower Cafe.opening default_threshold
            (Sample.world_with [Cafe.stored]))
     = fst (check_uniqueness Latin1.lower (Latin1.upper_event Cafe.opening)
              default_threshold (Sample.world_with [Cafe.stored_mixed])).
Proof.
  assert (event_lowers_alike Latin1.lower Cafe.opening
            (Latin1.upper_event Cafe.opening)) as He
    by (repeat split; right; vm_compute; reflexivity).
  assert (Forall2 (record_lowers_alike Latin1.lower)
            [Cafe.stored] [Cafe.stored_mixed]) as Hh.
  { constructor; [|constructor].
    split; [left; vm_compute; reflexivity|].
    split; [left; vm_compute; reflexivity|].
    vm_compute. reflexivity. }
  destruct (similarity_follows_lowered_text Latin1.lower Cafe.opening
              (Latin1.upper_event Cafe.opening) [Cafe.stored]
              [Cafe.stored_mixed] Latin1_lower_ascii He Hh)
    as (Hnew & _ & Hsim & _ & Hgate & _).
  split; [exact Hnew|]. split.
  - inversion Hsim; assumption.
  - apply (Hgate default_threshold _ _ (Sample.hash_of Cafe.opening)
             (Sample.hash_of (Latin1.upper_event Cafe.opening)));
      vm_compute; reflexivity.
Defined.

(** C10, as stated: the similarity is not invariant under every change of
    letter case.  The candidate with title 'Straße', description 'Bahn'
    and location 'Wien' has the similarity 1 with the stored record
    'straße', 'bahn', 'wien' and is rejected.  In capitals (upper() of the
    three fields) it reads 'STRASSE', 'BAHN', 'WIEN'; lower() of that is
    'strasse', not 'straße', the similarity with the same record is 1/2,
    and check_uniqueness returns True.  The first loop finds no equal hash
    for either. *)
Lemma upper_case_changes_verdict :
  let e := Tram.street in
  let e' := Latin1.upper_event e in
  let history_log := [Tram.street_record] in
  let w := Sample.world_with history_log in
  (title e' = lit "STRASSE" /\ description e' = lit "BAHN"
   /\ location e' = lit "WIEN")
  /\ Latin1.is_latin1 (title e ++ description e ++ location e) = true
  /\ Latin1.is_latin1 (text_of Tram.street_record k_title
                       ++ text_of Tram.street_record k_description
                       ++ text_of Tram.street_record k_location) = true
  /\ hash_pass history_log (Sample.hash_of e) = false
  /\ hash_pass history_log (Sample.hash_of e') = false
  /\ similarity_with Latin1.lower e Tram.street_record = Ok 1%float
  /\ similarity_with Latin1.lower e' Tram.street_record = Ok 0.5%float
  /\ fst (check_uniqueness Latin1.lower e default_threshold w) = Ok false
  /\ fst (check_uniqueness Latin1.lower e' default_threshold w) = Ok true
  /\ ~ (forall (new_event : Event) (entry : gmap str json),
          Latin1.is_latin1 (title new_event ++ description new_event
                            ++ location new_event) = true ->
          similarity_with Latin1.lower (Latin1.upper_event new_event) entry
          = similarity_with Latin1.lower new_event entry).
Proof.
  cbv zeta.
  split; [vm_compute; repeat split; reflexivity|].
  split; [vm_compute; reflexivity|]. split; [vm_compute; reflexivity|].
  split; [vm_compute; reflexivity|]. split; [vm_compute; reflexivity|].
  split; [vm_compute; reflexivity|]. split; [vm_compute; reflexivity|].
  split; [vm_compute; reflexivity|]. split; [vm_compute; reflexivity|].
  intros Hall.
  specialize (Hall Tram.street Tram.street_record eq_refl).
  vm_compute in Hall. discriminate Hall.
Qed.

(* --------------------------------------------------------------------- *)
(* The fingerprint                                                         *)
(* --------------------------------------------------------------------- *)

Lemma content_of_title_inj (t t' d l : str) :
  content_of t d l = content_of t' d l -> t = t'.
Proof. unfold content_of. intros H. exact (app_inv_tail _ _ _ H). Qed.

Lemma content_of_description_inj (t d d' l : str) :
  content_of t d l = content_of t d' l -> d = d'.
Proof.
  unfold content_of. intros H.
  apply app_inv_head in H. apply app_inv_head in H.
  exact (app_inv_tail _ _ _ H).
Qed.

Lemma content_of_location_inj (t d l l' : str) :
  content_of t d l = content_of t d l' -> l = l'.
Proof.
  unfold content_of. intros H.
  do 4 apply app_inv_head in H. exact H.
Qed.

Lemma one_field_changed_content (e e' : Event) :
  one_field_changed e e' ->
  content_of (title e) (description e) (location e)
  <> content_of (title e') (description e') (location e').
Proof.
  intros [(Ht & Hd & Hl)|[(Ht & Hd & Hl)|(Ht & Hd & Hl)]] Heq.
  - rewrite Hd, Hl in Heq. apply Ht. eapply content_of_title_inj, Heq.
  - rewrite Ht, Hl in Heq. apply Hd. eapply content_of_description_inj, Heq.
  - rewrite Ht, Hd in Heq. apply Hl. eapply content_of_location_inj, Heq.
Qed.

(* A string is cut at its first bar in one way only. *)
Lemma cut_at_first_bar (a a' r r' : str) :
  bar ∉ a -> bar ∉ a' ->
  a ++ bar :: r = a' ++ bar :: r' -> a = a' /\ r = r'.
Proof.
  revert a'. induction a as [|c a IH]; intros [|c' a'] Ha Ha' H; simpl in H.
  - injection H as ->. auto.
  - injection H as <- _. exfalso. apply Ha'. apply list_elem_of_here.
  - injection H as -> _. exfalso. apply Ha. apply list_elem_of_here.
  - injection H as -> H.
    destruct (IH a') as [-> ->]; auto.
    + intros Hin. apply Ha. apply list_elem_of_further, Hin.
    + intros Hin. apply Ha'. apply list_elem_of_further, Hin.
Qed.

Lemma content_of_inj_without_bar (t d l t' d' l' : str) :
  bar ∉ t -> bar ∉ d -> bar ∉ t' -> bar ∉ d' ->
  content_of t d l = content_of t' d' l' -> t = t' /\ d = d' /\ l = l'.
Proof.
  intros Ht Hd Ht' Hd' H. unfold content_of in H. simpl in H.
  change (N_of_ascii "|") with bar in H.
  apply cut_at_first_bar in H as [-> H]; [|assumption..].
  apply cut_at_first_bar in H as [-> ->]; [|assumption..].
  auto.
Qed.

(* The digest words stay within 32 bits. *)
Lemma w32_range (x : Z) : 0 <= Sha1.w32 x < 4294967296.
Proof. unfold Sha1.w32. apply Z.mod_pos_bound. lia. Qed.

Lemma compress_in_range (h : Sha1.state) (block : list Z) :
  words_in_range (Sha1.compress h block).
Proof.
  unfold words_in_range, Sha1.compress, Sha1.add32. cbn [Sha1.ha Sha1.hb Sha1.hc Sha1.hd Sha1.he].
  repeat split; apply w32_range.
Qed.

Lemma fold_compress_in_range (blocks : list (list Z)) (h : Sha1.state) :
  words_in_range h -> words_in_range (fold_left Sha1.compress blocks h).
Proof.
  revert h. induction blocks as [|b blocks IH]; intros h Hh; [exact Hh|].
  simpl. apply IH, compress_in_range.
Qed.

Lemma digest_range (msg : list Z) : 0 <= Sha1.digest msg < digest_bound.
Proof.
  unfold Sha1.digest, Sha1.digest_state.
  assert (words_in_range Sha1.init) as Hinit by (vm_compute; intuition discriminate).
  pose proof (fold_compress_in_range
                (Sha1.chunks (length (Sha1.pad msg)) 64 (Sha1.pad msg))
                Sha1.init Hinit) as (Ha & Hb & Hc & Hd & He).
  change digest_bound with 1461501637330902918203684832716283019655932542976.
  lia.
Qed.

Lemma encode_ascii (s : str) :
  Forall (fun c => (c < 128)%N) s -> Utf8.encode s = Ok (map Z.of_N s).
Proof.
  induction 1 as [|c s Hc _ IH]; [reflexivity|].
  simpl. unfold Utf8.encode_char.
  destruct (Z.ltb_spec (Z.of_N c) 128) as [_|Hge]; [|lia].
  rewrite IH. reflexivity.
Qed.

Lemma calculate_content_hash_title_run (n : nat) :
  calculate_content_hash (title_run n)
  = Ok (Sha1.hex 40 (Sha1.digest
                       (map Z.of_N (content_of (repeat 97%N n) [] [])))).
Proof.
  unfold calculate_content_hash, title_run; cbn [title description location].
  rewrite encode_ascii; [reflexivity|].
  unfold content_of. apply Forall_app. split.
  - apply Forall_forall. intros c Hc. apply list_elem_of_In, repeat_spec in Hc.
    subst c. reflexivity.
  - repeat constructor.
Qed.

(* Among more values than there are places, two share a place. *)
Lemma repeated_element {A : Type} `{EqDecision A} (l : list A) :
  ~ NoDup l ->
  exists i j x, (i < j)%nat /\ l !! i = Some x /\ l !! j = Some x.
Proof.
  induction l as [|x l IH]; intros Hdup.
  - exfalso. apply Hdup. constructor.
  - destruct (decide (x ∈ l)) as [Hin|Hnot].
    + apply list_elem_of_lookup in Hin as [j Hj].
      exists 0%nat, (S j), x. split; [lia|]. split; [reflexivity|exact Hj].
    + destruct IH as (i & j & y & Hij & Hi & Hj).
      { intros Hnd. apply Hdup. apply NoDup_cons. split; assumption. }
      exists (S i), (S j), y. split; [lia|]. split; assumption.
Qed.

Lemma pigeonhole (n : nat) (f : nat -> nat) :
  (forall i, (f i < n)%nat) ->
  exists i j, (i < j)%nat /\ f i = f j.
Proof.
  intros Hf.
  destruct (decide (NoDup (map f (seq 0 (S n))))) as [Hnd|Hdup].
  - exfalso.
    assert (length (map f (seq 0 (S n))) <= length (seq 0 n))%nat as Hlen.
    { apply NoDup_incl_length; [apply NoDup_ListNoDup, Hnd|].
      intros y Hy. apply in_map_iff in Hy as (i & <- & _).
      apply in_seq. specialize (Hf i). lia. }
    rewrite length_map, !length_seq in Hlen. lia.
  - apply repeated_element in Hdup as (i & j & x & Hij & Hi & Hj).
    exists i, j. split; [exact Hij|].
    rewrite list_lookup_fmap in Hi, Hj.
    destruct (seq 0 (S n) !! i) as [a|] eqn:Ha; [|discriminate].
    destruct (seq 0 (S n) !! j) as [b|] eqn:Hb; [|discriminate].
    apply lookup_seq in Ha as [-> _]. apply lookup_seq in Hb as [-> _].
    simpl in Hi, Hj. congruence.
Qed.

(* Two titles of different lengths with one fingerprint. *)
Lemma title_run_collision :
  exists n m, (n < m)%nat
    /\ calculate_content_hash (title_run n) = calculate_content_hash (title_run m).
Proof.
  destruct (pigeonhole (Z.to_nat digest_bound)
              (fun n => Z.to_nat (Sha1.digest
                 (map Z.of_N (content_of (repeat 97%N n) [] [])))))
    as (n & m & Hnm & Heq).
  { intros i. cbv beta.
    match goal with |- (Z.to_nat (Sha1.digest ?msg) < _)%nat =>
      pose proof (digest_range msg) as [Hlo Hhi] end.
    apply Z2Nat.inj_lt; [exact Hlo|unfold digest_bound; lia|exact Hhi]. }
  exists n, m. split; [exact Hnm|].
  rewrite !calculate_content_hash_title_run.
  apply Z2Nat.inj in Heq; [|apply digest_range..].
  rewrite Heq. reflexivity.
Qed.

(* --------------------------------------------------------------------- *)
(* UTF-8 and the hexadecimal digest lose nothing                          *)
(* --------------------------------------------------------------------- *)

Lemma lor_is_add (hi bound x : Z) :
  forallb (fun n => Z.lor hi (Z.of_nat n) =? hi + Z.of_nat n)
          (seq 0 (Z.to_nat bound)) = true ->
  0 <= x < bound -> Z.lor hi x = hi + x.
Proof.
  intros Hall Hx. rewrite forallb_forall in Hall.
  specialize (Hall (Z.to_nat x)). rewrite Z2Nat.id in Hall by lia.
  apply Z.eqb_eq, Hall, in_seq. lia.
Qed.

Lemma land_63 (z : Z) : 0 <= z -> Z.land z 63 = z mod 64.
Proof. intros Hz. change 63 with (Z.ones 6). rewrite Z.land_ones by lia. reflexivity. Qed.

Lemma shiftr_div (z n : Z) : 0 <= n -> Z.shiftr z n = z / 2 ^ n.
Proof. intros Hn. apply Z.shiftr_div_pow2, Hn. Qed.

(* The bytes of a code point, in arithmetic. *)
Lemma encode_char_eq (c : char) :
  let z := Z.of_N c in
  Utf8.encode_char c
  = if z <? 128 then Some [z]
    else if z <? 2048 then Some [192 + z / 64; 128 + z mod 64]
    else if (55296 <=? z) && (z <=? 57343) then None
    else if z <? 65536 then
      Some [224 + z / 4096; 128 + (z / 64) mod 64; 128 + z mod 64]
    else if z <? 1114112 then
      Some [240 + z / 262144; 128 + (z / 4096) mod 64;
            128 + (z / 64) mod 64; 128 + z mod 64]
    else None.
Proof.
  cbv zeta. unfold Utf8.encode_char.
  assert (0 <= Z.of_N c) as Hz by lia.
  set (z := Z.of_N c) in *.
  assert (forall y, 0 <= y -> Z.lor 128 (Z.land y 63) = 128 + y mod 64) as Hcont.
  { intros y Hy. rewrite land_63 by exact Hy.
    apply (lor_is_add 128 64); [vm_compute; reflexivity|].
    apply Z.mod_pos_bound. lia. }
  rewrite !shiftr_div by lia.
  change (2 ^ 6) with 64. change (2 ^ 12) with 4096. change (2 ^ 18) with 262144.
  destruct (Z.ltb_spec z 128); [reflexivity|].
  destruct (Z.ltb_spec z 2048).
  { rewrite Hcont by lia.
    rewrite (lor_is_add 192 32); [reflexivity|vm_compute; reflexivity|].
    split; [apply Z.div_pos; lia|apply Z.div_lt_upper_bound; lia]. }
  destruct ((55296 <=? z) && (z <=? 57343)); [reflexivity|].
  destruct (Z.ltb_spec z 65536).
  { rewrite !Hcont by (try apply Z.div_pos; lia).
    rewrite (lor_is_add 224 16); [reflexivity|vm_compute; reflexivity|].
    split; [apply Z.div_pos; lia|apply Z.div_lt_upper_bound; lia]. }
  destruct (Z.ltb_spec z 1114112); [|reflexivity].
  rewrite !Hcont by (try apply Z.div_pos; lia).
  rewrite (lor_is_add 240 8); [reflexivity|vm_compute; reflexivity|].
  split; [apply Z.div_pos; lia|apply Z.div_lt_upper_bound; lia].
Qed.

(* The first character and the rest can be read back from the bytes. *)
Lemma encode_char_prefix (c c' : char) (bs bs' r r' : list Z) :
  Utf8.encode_char c = Some bs -> Utf8.encode_char c' = Some bs' ->
  bs ++ r = bs' ++ r' -> c = c' /\ r = r'.
Proof.
  pose proof (encode_char_eq c) as Hc. pose proof (encode_char_eq c') as Hc'.
  cbv zeta in Hc, Hc'. rewrite Hc, Hc'. clear Hc Hc'.
  assert (0 <= Z.of_N c) as Hz by lia. assert (0 <= Z.of_N c') as Hz' by lia.
  set (z := Z.of_N c) in *. set (z' := Z.of_N c') in *.
  assert (z = z' -> c = c') as Hback by (unfold z, z'; lia).
  repeat match goal with
         | |- context [(?a <? ?b)] => destruct (Z.ltb_spec a b)
         | |- context [(?a <=? ?b) && (?c <=? ?d)] =>
             destruct ((a <=? b) && (c <=? d))
         end;
    intros Hb Hb' Heq; try discriminate;
    injection Hb as <-; injection Hb' as <-; simpl in Heq;
    injection Heq as Heq; subst;
    (split; [apply Hback|]);
    try reflexivity; try assumption;
    try (Z.div_mod_to_equations; lia).
Qed.

Lemma encode_inj (s s' : str) (bs : list Z) :
  Utf8.encode s = Ok bs -> Utf8.encode s' = Ok bs -> s = s'.
Proof.
  revert s' bs. induction s as [|c s IH]; intros [|c' s'] bs; simpl.
  - reflexivity.
  - intros H. injection H as <-.
    destruct (Utf8.encode_char c') as [b'|] eqn:Hc'; [|discriminate].
    destruct (Utf8.encode s'); simpl; [|discriminate].
    intros H. injection H as H. exfalso.
    rewrite encode_char_eq in Hc'. cbv zeta in Hc'.
    repeat match type of Hc' with
           | context [if ?c then _ else _] => destruct c
           end; try discriminate; injection Hc' as <-; discriminate.
  - destruct (Utf8.encode_char c) as [b|] eqn:Hc; [|discriminate].
    destruct (Utf8.encode s); simpl; [|discriminate].
    intros H H'. injection H as <-. injection H' as H'. exfalso.
    rewrite encode_char_eq in Hc. cbv zeta in Hc.
    repeat match type of Hc with
           | context [if ?c then _ else _] => destruct c
           end; try discriminate; injection Hc as <-; discriminate.
  - destruct (Utf8.encode_char c) as [b|] eqn:Hc; [|discriminate].
    destruct (Utf8.encode_char c') as [b'|] eqn:Hc'; [|discriminate].
    destruct (Utf8.encode s) as [rest|] eqn:Hs; simpl; [|discriminate].
    destruct (Utf8.encode s') as [rest'|] eqn:Hs'; simpl; [|discriminate].
    intros H H'. injection H as <-. injection H' as H'.
    destruct (encode_char_prefix c c' b b' rest rest' Hc Hc') as [-> ->];
      [symmetry; exact H'|].
    f_equal. exact (IH s' rest' eq_refl Hs').
Qed.

Lemma hex_digit_inj (a b : Z) :
  0 <= a < 16 -> 0 <= b < 16 -> Sha1.hex_digit a = Sha1.hex_digit b -> a = b.
Proof.
  unfold Sha1.hex_digit. intros Ha Hb.
  destruct (Z.ltb_spec a 10), (Z.ltb_spec b 10); lia.
Qed.

Lemma hex_inj (k : nat) (x y : Z) :
  0 <= x < 16 ^ Z.of_nat k -> 0 <= y < 16 ^ Z.of_nat k ->
  Sha1.hex k x = Sha1.hex k y -> x = y.
Proof.
  revert x y. induction k as [|k IH]; intros x y Hx Hy.
  - simpl in Hx, Hy. lia.
  - rewrite Nat2Z.inj_succ, Z.pow_succ_r in Hx, Hy by lia.
    cbn [Sha1.hex]. intros H. apply app_inj_tail in H as [Hhi Hlo].
    apply hex_digit_inj in Hlo; [|apply Z.mod_pos_bound; lia..].
    apply IH in Hhi; [|split; [apply Z.div_pos; lia
                              |apply Z.div_lt_upper_bound; lia]..].
    rewrite (Z.div_mod x 16), (Z.div_mod y 16) by lia. congruence.
Qed.

(* Two fingerprints are equal exactly when SHA-1 gives the two strings of
   bytes the same digest. *)
Lemma hexdigest_eq_iff (bs bs' : list Z) :
  Sha1.hexdigest bs = Sha1.hexdigest bs' <-> Sha1.digest bs = Sha1.digest bs'.
Proof.
  unfold Sha1.hexdigest. split; [|intros ->; reflexivity].
  apply hex_inj; change (16 ^ Z.of_nat 40) with digest_bound; apply digest_range.
Qed.

(** C4, as stated: a change of one field does not always change the
    fingerprint.  There are two events that differ in their title only and
    have the same fingerprint (the titles are runs of the letter a, of two
    of the first 2^160 + 1 lengths); and the events with title
    Rome|Carthage, description peace and with title Rome, description
    Carthage|peace differ in two fields and have the same fingerprint,
    because both give the string Rome|Carthage|peace|Paris to SHA-1. *)
Lemma fingerprint_collisions :
  (exists e e', one_field_changed e e'
                /\ calculate_content_hash e = calculate_content_hash e')
  /\ title Sample.bar_in_title <> title Sample.bar_in_description
  /\ description Sample.bar_in_title <> description Sample.bar_in_description
  /\ calculate_content_hash Sample.bar_in_title
     = calculate_content_hash Sample.bar_in_description.
Proof.
  split.
  - destruct title_run_collision as (n & m & Hnm & Heq).
    exists (title_run n), (title_run m). split; [|exact Heq].
    left. split; [|split; reflexivity].
    simpl. intros Hrep. apply (f_equal length) in Hrep.
    rewrite !repeat_length in Hrep. lia.
  - split; [discriminate|]. split; [discriminate|]. reflexivity.
Qed.

(** C4: calculate_content_hash is a function of the triple (title,
    description, location): equal triples give equal digests.  What it
    hashes is the string title|description|location: the fingerprint is the
    SHA-1 hex digest of the UTF-8 bytes of that string.  A change of exactly
    one of the three fields changes that string, and so does any change of
    the triple when neither title nor description holds a bar; two strings
    differ exactly when their UTF-8 bytes differ, and the fingerprints
    differ exactly when the SHA-1 digests of those bytes differ. *)
Theorem fingerprint_follows_content (e e' : Event) :
  (title e = title e' -> description e = description e' ->
   location e = location e' ->
   calculate_content_hash e = calculate_content_hash e')
  /\ calculate_content_hash e
     = rbind (Utf8.encode (content_of (title e) (description e) (location e)))
             (fun bytes => Ok (Sha1.hexdigest bytes))
  /\ (one_field_changed e e' ->
      content_of (title e) (description e) (location e)
      <> content_of (title e') (description e') (location e'))
  /\ (bar ∉ title e -> bar ∉ description e ->
      bar ∉ title e' -> bar ∉ description e' ->
      (title e, description e, location e)
      <> (title e', description e', location e') ->
      content_of (title e) (description e) (location e)
      <> content_of (title e') (description e') (location e'))
  /\ (content_of (title e) (description e) (location e)
      = content_of (title e') (description e') (location e') ->
      calculate_content_hash e = calculate_content_hash e')
  /\ (forall bs bs',
        Utf8.encode (content_of (title e) (description e) (location e)) = Ok bs ->
        Utf8.encode (content_of (title e') (description e') (location e'))
        = Ok bs' ->
        (bs = bs' <->
         content_of (title e) (description e) (location e)
         = content_of (title e') (description e') (location e'))
        /\ (calculate_content_hash e = calculate_content_hash e' <->
            Sha1.digest bs = Sha1.digest bs')).
Proof.
  split; [|split; [|split; [|split; [|split]]]].
  - intros Ht Hd Hl. unfold calculate_content_hash. rewrite Ht, Hd, Hl.
    reflexivity.
  - reflexivity.
  - apply one_field_changed_content.
  - intros Ht Hd Ht' Hd' Hne Heq. apply Hne.
    apply content_of_inj_without_bar in Heq as (-> & -> & ->); auto.
  - intros Heq. unfold calculate_content_hash. rewrite Heq. reflexivity.
  - intros bs bs' Hbs Hbs'. split.
    + split.
      * intros <-. exact (encode_inj _ _ _ Hbs Hbs').
      * intros Heq. rewrite Heq in Hbs. congruence.
    + unfold calculate_content_hash. rewrite Hbs, Hbs'. simpl.
      rewrite <- hexdigest_eq_iff. split; congruence.
Qed.

(* The sample and the sample moved to Rome: one field changed, another
   content string, and here another fingerprint. *)
Example radio_moved_fingerprint :
  one_field_changed Sample.radio Sample.radio_moved
  /\ calculate_content_hash Sample.radio
     <> calculate_content_hash Sample.radio_moved.
Proof.
  split.
  - right. right. repeat split. discriminate.
  - vm_compute. discriminate.
Qed.

(* --------------------------------------------------------------------- *)
(* The effects of each step of a cycle                                     *)
(* --------------------------------------------------------------------- *)

Lemma grows_refl (w : world) : grows w w 0 0 0 [].
Proof. unfold grows. rewrite !Nat.add_0_r, app_nil_r. auto. Qed.

Lemma grows_trans (w w1 w2 : world) (dg di dv dg' di' dv' : nat)
    (dp dp' : list (str * str)) :
  grows w w1 dg di dv dp -> grows w1 w2 dg' di' dv' dp' ->
  grows w w2 (dg + dg') (di + di') (dv + dv') (dp ++ dp').
Proof.
  intros (Hg & Hi & Hv & Hp) (Hg' & Hi' & Hv' & Hp').
  unfold grows. rewrite Hg', Hi', Hv', Hp', Hg, Hi, Hv, Hp, app_assoc.
  repeat split; lia.
Qed.

Lemma verdicts_logged (l : level) (msg : String.string) (w : world) :
  verdicts (logged l msg w)
  = (verdicts w + if is_verdict (l, msg) then 1 else 0)%nat.
Proof.
  unfold verdicts, logged; cbn [log].
  rewrite filter_app, length_app. cbn [filter list_filter].
  destruct (decide (is_verdict (l, msg))) as [H|H];
    destruct (is_verdict (l, msg)); try reflexivity;
    exfalso; [apply H|]; auto; contradiction.
Qed.

Lemma grows_logged (l : level) (msg : String.string) (w : world) :
  grows w (logged l msg w) 0 0 (if is_verdict (l, msg) then 1 else 0) [].
Proof.
  unfold grows. rewrite verdicts_logged. cbn [logged gen_calls image_calls posts].
  rewrite !Nat.add_0_r, app_nil_r. auto.
Qed.

Lemma logger_eq (l : level) (msg : String.string) (w : world) :
  logger l msg w = (Ok tt, logged l msg w).
Proof. reflexivity. Qed.

Ltac world_facts :=
  unfold grows, verdicts; cbn [file log gen_calls image_calls posts logged set_file];
  rewrite ?filter_app, ?length_app; cbn;
  rewrite ?app_nil_r, ?Nat.add_0_r; repeat split; auto; try lia.

Lemma load_history_log_effect (w w1 : world) (h : list (gmap str json)) :
  load_history_log w = (Ok h, w1) ->
  file w1 = file w /\ grows w w1 0 0 0 [].
Proof.
  rewrite load_history_log_eq. destruct w as [f l g i p]; cbn [file].
  destruct f; intros H; injection H as <- <-; world_facts.
Qed.

Section RunFacts.

Variable lower : str -> str.
Variable env : oracle.

(* The verdict of the gate depends on the file alone. *)
Lemma check_uniqueness_verdict (event : Event) (w : world) :
  fst (check_uniqueness lower event default_threshold w)
  = gate_verdict lower event (file w).
Proof.
  unfold gate_verdict, check_uniqueness, bind, lift.
  rewrite !load_history_log_eq. cbn [file].
  destruct (file w); cbn;
    destruct (calculate_content_hash event); cbn; try reflexivity;
    repeat match goal with
           | |- context [if ?c then _ else _] => destruct c eqn:?; cbn
           | |- context [match ?c with Ok _ => _ | Raise _ => _ end] =>
               destruct c eqn:?; cbn
           end; reflexivity.
Qed.

Lemma check_uniqueness_effect (event : Event) (threshold : float)
    (w w' : world) (r : result bool) :
  check_uniqueness lower event threshold w = (r, w') ->
  file w' = file w
  /\ ((exists b h, r = Ok b /\ calculate_content_hash event = Ok h
                   /\ grows w w' 0 0 1 [])
      \/ (exists e, r = Raise e /\ grows w w' 0 0 0 [])).
Proof.
  unfold check_uniqueness, bind, lift.
  destruct (load_history_log w) as [[h|e] w1] eqn:Hload.
  2:{ destruct (load_history_log_total w) as (h & w2 & Hl & _). congruence. }
  apply load_history_log_effect in Hload as [Hf Hg].
  destruct (calculate_content_hash event) as [new_hash|e] eqn:Hhash.
  2:{ intros H; injection H as <- <-. split; [exact Hf|]. right. eauto. }
  destruct (hash_pass h new_hash).
  { rewrite logger_eq. cbn. intros H; injection H as <- <-.
    split; [exact Hf|]. left. exists false, new_hash.
    split; [reflexivity|]. split; [reflexivity|].
    apply (grows_trans _ _ _ 0 0 0 0 0 1 [] [] Hg), grows_logged. }
  destruct (similarity_pass _ _ _ _) as [[]|e].
  - rewrite logger_eq. cbn. intros H; injection H as <- <-.
    split; [exact Hf|]. left. exists true, new_hash.
    split; [reflexivity|]. split; [reflexivity|].
    apply (grows_trans _ _ _ 0 0 0 0 0 1 [] [] Hg), grows_logged.
  - rewrite logger_eq. cbn. intros H; injection H as <- <-.
    split; [exact Hf|]. left. exists false, new_hash.
    split; [reflexivity|]. split; [reflexivity|].
    apply (grows_trans _ _ _ 0 0 0 0 0 1 [] [] Hg), grows_logged.
  - intros H; injection H as <- <-. split; [exact Hf|]. right. eauto.
Qed.

Lemma generate_event_effect (w w' : world) (r : result Event) :
  generate_event env w = (r, w') ->
  file w' = file w /\ grows w w' 1 0 0 []
  /\ r = generated env (gen_calls w).
Proof.
  unfold generated, generate_event, try_except, bind, ask_chat, raise, ret.
  destruct w as [f l g i p]. cbn [file log gen_calls image_calls posts].
  destruct (chat_answer env g) as [event_data|e]; cbn.
  - match goal with |- context [if ?c then _ else _] => destruct c end; cbn;
      intros H; injection H as <- <-; world_facts.
  - intros H; injection H as <- <-; world_facts.
Qed.

Lemma generate_image_effect (image_prompt event_title : str)
    (w w' : world) (r : result str) :
  generate_image env image_prompt event_title w = (r, w') ->
  file w' = file w /\ grows w w' 0 1 0 []
  /\ r = image_answer env image_prompt event_title.
Proof.
  unfold generate_image, try_except, bind, ask_image, raise, ret.
  destruct w as [f l g i p]. cbn [file log gen_calls image_calls posts].
  destruct (image_answer env image_prompt event_title); cbn;
    intros H; injection H as <- <-; world_facts.
Qed.

Lemma post_to_x_effect (event : Event) (image_path : str) (w : world) :
  exists (posted : bool) (w' : world),
    post_to_x env event image_path w = (Ok posted, w')
    /\ file w' = file w
    /\ grows w w' 0 0 0
         (if posted then [(format_post_text event, image_path)] else [])
    /\ (posted = true ->
        exists media_id tweet_id,
          upload_answer env image_path = Ok media_id
          /\ tweet_answer env (format_post_text event) media_id
             = Ok (Some tweet_id)).
Proof.
  unfold post_to_x, try_except, bind, lift, create_tweet, ret.
  destruct w as [f l g i p].
  destruct (upload_answer env image_path) as [media_id|e] eqn:Hup; cbn.
  - destruct (tweet_answer env (format_post_text event) media_id)
      as [[tweet_id|]|e] eqn:Htw; cbn.
    + exists true. eexists. split; [reflexivity|].
      split; [reflexivity|]. split; [world_facts|]. eauto.
    + exists false. eexists. split; [reflexivity|].
      split; [reflexivity|]. split; [world_facts|]. discriminate.
    + exists false. eexists. split; [reflexivity|].
      split; [reflexivity|]. split; [world_facts|]. discriminate.
  - exists false. eexists. split; [reflexivity|].
    split; [reflexivity|]. split; [world_facts|]. discriminate.
Qed.

End RunFacts.

Lemma load_history_log_loaded (w : world) :
  exists w1, load_history_log w = (Ok (loaded (file w)), w1)
             /\ file w1 = file w /\ grows w w1 0 0 0 [].
Proof.
  destruct (load_history_log_total w) as (h & w1 & Hl & _).
  exists w1. pose proof (load_history_log_effect w w1 h Hl) as [Hf Hg].
  split; [|split; assumption].
  rewrite Hl. rewrite load_history_log_eq in Hl.
  destruct (file w); injection Hl as <- _; reflexivity.
Qed.

(* A line that is not a verdict of the gate. *)
Lemma grows_logged_plain (l : level) (msg : String.string) (w : world) :
  is_verdict (l, msg) = false -> grows w (logged l msg w) 0 0 0 [].
Proof. intros H. pose proof (grows_logged l msg w) as G. rewrite H in G. exact G. Qed.

Lemma grows_set_file (f : file_state) (w : world) : grows w (set_file f w) 0 0 0 [].
Proof.
  unfold grows, verdicts. cbn [set_file gen_calls image_calls posts log].
  rewrite !Nat.add_0_r, app_nil_r. auto.
Qed.

Section CycleFacts.

Variable lower : str -> str.
Variable env : oracle.

(* Illustrate, publish, record: one request to the image generator, no
   request to the text generator, no verdict; and the three ways out. *)
Lemma illustrate_publish_record_effect (event : Event) (w : world) (h : str) :
  calculate_content_hash event = Ok h ->
  exists (r : result bool) (w' : world) (dp : list (str * str)),
    illustrate_publish_record env event w = (r, w')
    /\ grows w w' 0 1 0 dp
    /\ ((r = Ok true /\ disk env = Written
         /\ exists post entry,
              dp = [post] /\ published env post
              /\ file w' = Stored (loaded (file w) ++ [entry]))
        \/ (r <> Ok true /\ dp = [] /\ file w' = file w)
        \/ ((exists e, r = Raise e) /\ disk env <> Written
            /\ (exists post, dp = [post] /\ published env post)
            /\ (file w' = file w \/ file w' = Garbled))).
Proof.
  intros Hhash. unfold illustrate_publish_record, bind. rewrite logger_eq.
  pose proof (grows_logged_plain INFO "Generating image..." w eq_refl) as G0.
  set (w0 := logged INFO "Generating image..." w) in *.
  destruct (generate_image env (image_prompt event) (title event) w0)
    as [[image_path|e] w1] eqn:Himg;
    pose proof (generate_image_effect env _ _ _ _ _ Himg) as (F1 & G1 & A1);
    pose proof (grows_trans _ _ _ _ _ _ _ _ _ _ _ G0 G1) as G01.
  2:{ eexists _, _, _. split; [reflexivity|]. split; [exact G01|].
      right. left. split; [discriminate|]. split; [reflexivity|].
      rewrite F1. reflexivity. }
  rewrite logger_eq.
  pose proof (grows_logged_plain INFO "Posting to X..." w1 eq_refl) as G2.
  set (w2 := logged INFO "Posting to X..." w1) in *.
  destruct (post_to_x_effect env event image_path w2)
    as (posted & w3 & Hpost & F3 & G3 & A3).
  rewrite Hpost.
  pose proof (grows_trans _ _ _ _ _ _ _ _ _ _ _ G01
                (grows_trans _ _ _ _ _ _ _ _ _ _ _ G2 G3)) as G03.
  assert (file w3 = file w) as F03 by (rewrite F3; cbn; rewrite F1; reflexivity).
  destruct posted.
  2:{ rewrite logger_eq. cbn [bind ret].
      pose proof (grows_logged_plain ERROR "Failed to post to X" w3 eq_refl) as G4.
      pose proof (grows_trans _ _ _ _ _ _ _ _ _ _ _ G03 G4) as G04.
      eexists _, _, _. split; [reflexivity|]. split; [exact G04|].
      right. left. split; [discriminate|]. split; [reflexivity|exact F03]. }
  assert (published env (format_post_text event, image_path)) as Hpub.
  { destruct (A3 eq_refl) as (media_id & tweet_id & Hup & Htw).
    split; [eexists _, _; symmetry; exact A1|]. eauto. }
  destruct (load_history_log_loaded w3) as (w4 & Hload & F4 & G4).
  rewrite Hload. rewrite F03 in Hload |- *. unfold lift. rewrite Hhash.
  pose proof (grows_trans _ _ _ _ _ _ _ _ _ _ _ G03 G4) as G04.
  pose proof (save_history_log_cases env
                (loaded (file w) ++ [event_entry_of env event image_path h]) w4)
    as Hsave.
  destruct (disk env) eqn:Hdisk; rewrite Hsave; clear Hsave.
  - rewrite !logger_eq. cbn [ret].
    pose proof (grows_trans _ _ _ _ _ _ _ _ _ _ _ G04
                  (grows_trans _ _ _ _ _ _ _ _ _ _ _
                     (grows_set_file (Stored (loaded (file w)
                        ++ [event_entry_of env event image_path h])) w4)
                     (grows_logged_plain INFO "Post published successfully!" _
                        eq_refl))) as G05.
    eexists _, _, _. split; [reflexivity|]. split; [exact G05|].
    left. split; [reflexivity|]. split; [reflexivity|].
    eexists _, _. split; [reflexivity|]. split; [exact Hpub|reflexivity].
  - pose proof (grows_trans _ _ _ _ _ _ _ _ _ _ _ G04
                  (grows_logged_plain ERROR "Error saving history log" w4 eq_refl))
      as G05.
    eexists _, _, _. split; [reflexivity|]. split; [exact G05|].
    right. right. split; [eauto|]. split; [discriminate|].
    split; [eexists; split; [reflexivity|exact Hpub]|]. left. cbn [file logged].
    rewrite F4. exact F03.
  - pose proof (grows_trans _ _ _ _ _ _ _ _ _ _ _ G04
                  (grows_trans _ _ _ _ _ _ _ _ _ _ _
                     (grows_set_file Garbled w4)
                     (grows_logged_plain ERROR "Error saving history log" _
                        eq_refl))) as G05.
    eexists _, _, _. split; [reflexivity|]. split; [exact G05|].
    right. right. split; [eauto|]. split; [discriminate|].
    split; [eexists; split; [reflexivity|exact Hpub]|]. right. reflexivity.
Qed.

End CycleFacts.

Section CycleOutcome.

Variable lower : str -> str.
Variable env : oracle.

Ltac say_plain l msg w G :=
  pose proof (grows_logged_plain l msg w eq_refl) as G.

Lemma run_outcome (w : world) :
  exists (b : bool) (w' : world) (dg di dv : nat) (dp : list (str * str)),
    run lower env w = (Ok b, w')
    /\ grows w w' dg di dv dp
    /\ cycle_end env b dp (file w) (file w')
    /\ cycle_course lower env w b dg di dv dp.
Proof.
  unfold run, try_except, bind. rewrite !logger_eq.
  say_plain INFO "Starting History Rewritten bot..."%string w Ga.
  set (wa := logged INFO "Starting History Rewritten bot..." w) in *.
  say_plain INFO "Generating alternate history event..."%string wa Gb.
  set (wb := logged INFO "Generating alternate history event..." wa) in *.
  pose proof (grows_trans _ _ _ _ _ _ _ _ _ _ _ Ga Gb) as Gab.
  assert (file wb = file w) as Fb by reflexivity.
  assert (gen_calls wb = gen_calls w) as Cb by reflexivity.
  unfold cycle_course.
  destruct (generate_event env wb) as [[e1|x] w1] eqn:Hg1;
    pose proof (generate_event_effect env _ _ _ Hg1) as (F1 & G1 & R1);
    rewrite Cb in R1; rewrite <- R1;
    pose proof (grows_trans _ _ _ _ _ _ _ _ _ _ _ Gab G1) as G01.
  2:{ rewrite logger_eq. cbv beta iota.
      say_plain ERROR "Bot execution failed"%string w1 Gf.
      pose proof (grows_trans _ _ _ _ _ _ _ _ _ _ _ G01 Gf) as G.
      eexists _, _, _, _, _, _. split; [reflexivity|]. split; [exact G|].
      split; [right; left; repeat split; cbn [file logged]; congruence|].
      repeat split. }
  rewrite logger_eq.
  say_plain INFO "Checking event uniqueness..."%string w1 Gc.
  set (wc := logged INFO "Checking event uniqueness..." w1) in *.
  assert (file wc = file w) as Fc by (cbn [wc file logged]; congruence).
  pose proof (check_uniqueness_verdict lower e1 wc) as V1. rewrite Fc in V1.
  destruct (check_uniqueness lower e1 default_threshold wc)
    as [[u1|x] w2] eqn:Hc1; cbn [fst] in V1; rewrite <- V1;
    pose proof (check_uniqueness_effect lower _ _ _ _ _ Hc1) as (F2 & E2).
  2:{ destruct E2 as [(b & h & Hb & _)|(x' & _ & G2)]; [discriminate|].
      rewrite logger_eq. cbv beta iota.
      say_plain ERROR "Bot execution failed"%string w2 Gf.
      pose proof (grows_trans _ _ _ _ _ _ _ _ _ _ _ G01
                    (grows_trans _ _ _ _ _ _ _ _ _ _ _ Gc
                       (grows_trans _ _ _ _ _ _ _ _ _ _ _ G2 Gf))) as G.
      eexists _, _, _, _, _, _. split; [reflexivity|]. split; [exact G|].
      split; [right; left; repeat split; cbn [file logged]; congruence|].
      repeat split. }
  destruct E2 as [(b & h1 & Hb & Hh1 & G2)|(x' & Hx & _)]; [|discriminate].
  injection Hb as <-.
  pose proof (grows_trans _ _ _ _ _ _ _ _ _ _ _ G01
                (grows_trans _ _ _ _ _ _ _ _ _ _ _ Gc G2)) as G02.
  assert (file w2 = file w) as F02 by congruence.
  destruct u1; cbn [negb]; cbv beta iota.
  { (* accepted at once *)
    destruct (illustrate_publish_record_effect env e1 w2 h1 Hh1)
      as (r & w3 & dp & Hrun & G3 & Hend).
    rewrite Hrun. rewrite F02 in Hend.
    pose proof (grows_trans _ _ _ _ _ _ _ _ _ _ _ G02 G3) as G03.
    destruct r as [b|x].
    - eexists _, _, _, _, _, _. split; [reflexivity|]. split; [exact G03|].
      split; [|repeat split].
      destruct Hend as [(Hb & Hd & Hp)|[(Hb & -> & Hf)|((x & Hx) & _)]];
        [injection Hb as ->; left; auto
        |right; left; destruct b; [congruence|auto]
        |discriminate].
    - rewrite logger_eq. cbv beta iota.
      say_plain ERROR "Bot execution failed"%string w3 Gf.
      pose proof (grows_trans _ _ _ _ _ _ _ _ _ _ _ G03 Gf) as G.
      eexists _, _, _, _, _, _. split; [reflexivity|]. split; [exact G|].
      split; [|repeat split].
      destruct Hend as [(Hb & _)|[(_ & -> & Hf)|(_ & Hd & Hp & Hf)]];
        [discriminate
        |right; left; cbn [file logged]; auto
        |right; right; cbn [file logged]; rewrite app_nil_r; auto]. }
  (* rejected: one more generation *)
  rewrite logger_eq.
  say_plain INFO "Event too similar to previous posts, trying again..."%string w2 Gd.
  set (wd := logged INFO "Event too similar to previous posts, trying again..." w2)
    in *.
  pose proof (grows_trans _ _ _ _ _ _ _ _ _ _ _ G02 Gd) as G0d.
  assert (gen_calls wd = S (gen_calls w)) as Cd.
  { destruct G0d as (Hg & _). rewrite Hg. cbn. lia. }
  assert (file wd = file w) as Fd by (cbn [wd file logged]; exact F02).
  destruct (generate_event env wd) as [[e2|x] w3] eqn:Hg2;
    pose proof (generate_event_effect env _ _ _ Hg2) as (F3 & G3 & R2);
    rewrite Cd in R2; rewrite <- R2;
    pose proof (grows_trans _ _ _ _ _ _ _ _ _ _ _ G0d G3) as G03.
  2:{ rewrite logger_eq. cbv beta iota.
      say_plain ERROR "Bot execution failed"%string w3 Gf.
      pose proof (grows_trans _ _ _ _ _ _ _ _ _ _ _ G03 Gf) as G.
      eexists _, _, _, _, _, _. split; [reflexivity|]. split; [exact G|].
      split; [right; left; repeat split; cbn [file logged]; congruence|].
      repeat split. }
  assert (file w3 = file w) as F03 by congruence.
  pose proof (check_uniqueness_verdict lower e2 w3) as V2. rewrite F03 in V2.
  destruct (check_uniqueness lower e2 default_threshold w3)
    as [[u2|x] w4] eqn:Hc2; cbn [fst] in V2; rewrite <- V2;
    pose proof (check_uniqueness_effect lower _ _ _ _ _ Hc2) as (F4 & E4).
  2:{ destruct E4 as [(b & h & Hb & _)|(x' & _ & G4)]; [discriminate|].
      rewrite logger_eq. cbv beta iota.
      say_plain ERROR "Bot execution failed"%string w4 Gf.
      pose proof (grows_trans _ _ _ _ _ _ _ _ _ _ _ G03
                    (grows_trans _ _ _ _ _ _ _ _ _ _ _ G4 Gf)) as G.
      eexists _, _, _, _, _, _. split; [reflexivity|]. split; [exact G|].
      split; [right; left; repeat split; cbn [file logged]; congruence|].
      repeat split. }
  destruct E4 as [(b & h2 & Hb & Hh2 & G4)|(x' & Hx & _)]; [|discriminate].
  injection Hb as <-.
  pose proof (grows_trans _ _ _ _ _ _ _ _ _ _ _ G03 G4) as G04.
  assert (file w4 = file w) as F04 by congruence.
  destruct u2; cbn [negb]; cbv beta iota.
  { destruct (illustrate_publish_record_effect env e2 w4 h2 Hh2)
      as (r & w5 & dp & Hrun & G5 & Hend).
    rewrite Hrun. rewrite F04 in Hend.
    pose proof (grows_trans _ _ _ _ _ _ _ _ _ _ _ G04 G5) as G05.
    destruct r as [b|x].
    - eexists _, _, _, _, _, _. split; [reflexivity|]. split; [exact G05|].
      split; [|repeat split].
      destruct Hend as [(Hb & Hd & Hp)|[(Hb & -> & Hf)|((x & Hx) & _)]];
        [injection Hb as ->; left; auto
        |right; left; destruct b; [congruence|auto]
        |discriminate].
    - rewrite logger_eq. cbv beta iota.
      say_plain ERROR "Bot execution failed"%string w5 Gf.
      pose proof (grows_trans _ _ _ _ _ _ _ _ _ _ _ G05 Gf) as G.
      eexists _, _, _, _, _, _. split; [reflexivity|]. split; [exact G|].
      split; [|repeat split].
      destruct Hend as [(Hb & _)|[(_ & -> & Hf)|(_ & Hd & Hp & Hf)]];
        [discriminate
        |right; left; cbn [file logged]; auto
        |right; right; cbn [file logged]; rewrite app_nil_r; auto]. }
  rewrite logger_eq. cbv beta iota. unfold ret.
  say_plain ERROR "Unable to generate unique event after 2 attempts"%string w4 Gf.
  pose proof (grows_trans _ _ _ _ _ _ _ _ _ _ _ G04 Gf) as G.
  eexists _, _, _, _, _, _. split; [reflexivity|]. split; [exact G|].
  split; [right; left; repeat split; cbn [file logged]; congruence|].
  repeat split.
Qed.

End CycleOutcome.

Lemma cycle_end_nothing (env : oracle) (b : bool) (f f' : file_state) :
  cycle_end env b [] f f' -> b = false /\ f' = f.
Proof.
  intros [(_ & _ & post & entry & Hdp & _)|[(Hb & _ & Hf)|(_ & _ & (post & Hdp & _) & _)]];
    [discriminate|auto|discriminate].
Qed.

Ltac split_course H :=
  repeat match type of H with
         | context [match ?c with Ok _ => _ | Raise _ => _ end] => destruct c
         | context [if ?c then _ else _] => destruct c
         end.

(** C5: a cycle asks the text generator once or twice, never more, and the
    gate gives at most two verdicts.  When the first candidate is accepted
    there is one request and one verdict.  When the gate rejects the first
    candidate there are exactly two requests; when the second request
    returns an event and the gate accepts it, the cycle goes on to the image
    with two verdicts given; when the gate rejects it too the cycle returns
    False after its second verdict, without a request to the image
    generator, without a post and with the file as it was. *)
Theorem single_retry (lower : str -> str) (env : oracle) (w : world) :
  exists (b : bool) (w' : world),
    run lower env w = (Ok b, w')
    /\ (gen_calls w < gen_calls w' <= gen_calls w + 2)%nat
    /\ (verdicts w' <= verdicts w + 2)%nat
    /\ (forall e1,
          generated env (gen_calls w) = Ok e1 ->
          gate_verdict lower e1 (file w) = Ok true ->
          gen_calls w' = (gen_calls w + 1)%nat
          /\ verdicts w' = (verdicts w + 1)%nat)
    /\ (forall e1,
          generated env (gen_calls w) = Ok e1 ->
          gate_verdict lower e1 (file w) = Ok false ->
          gen_calls w' = (gen_calls w + 2)%nat
          /\ forall e2,
               generated env (S (gen_calls w)) = Ok e2 ->
               (gate_verdict lower e2 (file w) = Ok true ->
                verdicts w' = (verdicts w + 2)%nat
                /\ image_calls w' = (image_calls w + 1)%nat)
               /\ (gate_verdict lower e2 (file w) = Ok false ->
                   b = false
                   /\ verdicts w' = (verdicts w + 2)%nat
                   /\ image_calls w' = image_calls w
                   /\ posts w' = posts w
                   /\ file w' = file w)).
Proof.
  destruct (run_outcome lower env w)
    as (b & w' & dg & di & dv & dp & Hrun & (Hg & Hi & Hv & Hp) & Hend & Hcourse).
  exists b, w'. split; [exact Hrun|].
  unfold cycle_course in Hcourse.
  split; [|split; [|split]].
  - split_course Hcourse; lia.
  - split_course Hcourse; lia.
  - intros e1 H1 V1. rewrite H1, V1 in Hcourse. lia.
  - intros e1 H1 V1. rewrite H1, V1 in Hcourse. split.
    + split_course Hcourse; lia.
    + intros e2 H2. rewrite H2 in Hcourse. split; intros V2;
        rewrite V2 in Hcourse.
      * lia.
      * destruct Hcourse as (-> & -> & -> & -> & ->).
        rewrite app_nil_r in Hp.
        apply cycle_end_nothing in Hend as [_ Hf].
        repeat split; try lia; assumption.
Qed.

(** C6: a cycle that fails leaves the history file as it was, whether it
    fails in the generation, by two rejections of the gate, in the
    illustration or in the publication (an answer without data included):
    a cycle ends published and recorded, or failed with nothing published
    and the file unchanged, or failed in the record step itself when the
    disk refuses the write after the post was published.  The file changes
    only in a cycle whose post the platform confirmed. *)
Theorem failure_leaves_store (lower : str -> str) (env : oracle) (w : world) :
  exists (b : bool) (w' : world) (dp : list (str * str)),
    run lower env w = (Ok b, w')
    /\ posts w' = posts w ++ dp
    /\ cycle_end env b dp (file w) (file w')
    /\ (file w' <> file w -> exists post, dp = [post] /\ published env post)
    /\ (b = false -> disk env = Written -> dp = [] /\ file w' = file w)
    /\ (forall e, generated env (gen_calls w) = Raise e ->
          b = false /\ dp = [] /\ file w' = file w)
    /\ (forall e1 e2,
          generated env (gen_calls w) = Ok e1 ->
          gate_verdict lower e1 (file w) = Ok false ->
          generated env (S (gen_calls w)) = Ok e2 ->
          gate_verdict lower e2 (file w) = Ok false ->
          b = false /\ dp = [] /\ file w' = file w)
    /\ ((forall image_prompt event_title,
            exists e, image_answer env image_prompt event_title = Raise e) ->
        b = false /\ dp = [] /\ file w' = file w)
    /\ ((forall image_path, exists e, upload_answer env image_path = Raise e) ->
        b = false /\ dp = [] /\ file w' = file w)
    /\ ((forall text media_id,
            tweet_answer env text media_id = Ok None
            \/ exists e, tweet_answer env text media_id = Raise e) ->
        b = false /\ dp = [] /\ file w' = file w).
Proof.
  destruct (run_outcome lower env w)
    as (b & w' & dg & di & dv & dp & Hrun & (Hg & Hi & Hv & Hp) & Hend & Hcourse).
  exists b, w', dp. split; [exact Hrun|]. split; [exact Hp|].
  split; [exact Hend|].
  assert ((forall post, ~ published env post) ->
          b = false /\ dp = [] /\ file w' = file w) as Hnone.
  { intros Hno.
    destruct Hend as [(_ & _ & post & entry & _ & Hpub & _)
                     |[(Hb & Hdp & Hf)|(_ & _ & (post & _ & Hpub) & _)]];
      [exfalso; exact (Hno _ Hpub)|auto|exfalso; exact (Hno _ Hpub)]. }
  unfold cycle_course in Hcourse.
  split; [|split; [|split; [|split; [|split; [|split]]]]].
  - intros Hchanged.
    destruct Hend as [(_ & _ & post & entry & Hdp & Hpub & _)
                     |[(_ & _ & Hf)|(_ & _ & (post & Hdp & Hpub) & _)]];
      [eauto|contradiction|eauto].
  - intros Hb Hd.
    destruct Hend as [(Hb' & _)|[(_ & Hdp & Hf)|(_ & Hd' & _)]];
      [congruence|auto|contradiction].
  - intros e H1. rewrite H1 in Hcourse.
    destruct Hcourse as (_ & _ & Hb & _ & ->).
    apply cycle_end_nothing in Hend as [_ Hf]. auto.
  - intros e1 e2 H1 V1 H2 V2. rewrite H1, V1, H2, V2 in Hcourse.
    destruct Hcourse as (_ & _ & Hb & _ & ->).
    apply cycle_end_nothing in Hend as [_ Hf]. auto.
  - intros Himg. apply Hnone. intros post [(p & t & Hok) _].
    destruct (Himg p t) as [e He]. congruence.
  - intros Hup. apply Hnone. intros post [_ (m & t & Hok & _)].
    destruct (Hup (snd post)) as [e He]. congruence.
  - intros Htw. apply Hnone. intros post [_ (m & t & _ & Hok)].
    destruct (Htw (fst post) m) as [Hn|[e He]]; congruence.
Qed.

Lemma single_retry_witness :
  exists (b : bool) (w' : world),
    run ascii_lower Sample.fair (Sample.world_with [Sample.radio_record])
    = (Ok b, w')
    /\ gen_calls w' = 2%nat
    /\ b = false
    /\ image_calls w' = 0%nat
    /\ file w' = Stored [Sample.radio_record].
Proof.
  destruct (single_retry ascii_lower Sample.fair
              (Sample.world_with [Sample.radio_record]))
    as (b & w' & Hrun & _ & _ & _ & Hrejected).
  exists b, w'. split; [exact Hrun|].
  assert (generated Sample.fair 0 = Ok Sample.radio) as Hgen0
    by (vm_compute; reflexivity).
  assert (generated Sample.fair 1 = Ok Sample.radio) as Hgen1
    by (vm_compute; reflexivity).
  assert (gate_verdict ascii_lower Sample.radio (Stored [Sample.radio_record])
          = Ok false) as Hgate by (vm_compute; reflexivity).
  destruct (Hrejected Sample.radio Hgen0 Hgate) as [Hcalls Hsecond].
  destruct (Hsecond Sample.radio Hgen1) as [_ Htwice].
  destruct (Htwice Hgate) as (Hb & _ & Himg & _ & Hfile).
  auto.
Defined.

Lemma failure_leaves_store_witness :
  exists (b : bool) (w' : world) (dp : list (str * str)),
    run ascii_lower Sample.mute Sample.fresh = (Ok b, w')
    /\ posts w' = posts Sample.fresh ++ dp
    /\ b = false /\ dp = [] /\ file w' = NoFile.
Proof.
  destruct (failure_leaves_store ascii_lower Sample.mute Sample.fresh)
    as (b & w' & dp & Hrun & Hposts & _ & _ & _ & _ & _ & _ & _ & Hmute).
  exists b, w', dp. split; [exact Hrun|]. split; [exact Hposts|].
  apply Hmute. intros text media_id. left. reflexivity.
Defined.

Lemma fingerprint_follows_content_witness :
  content_of (title Sample.radio) (description Sample.radio)
             (location Sample.radio)
  <> content_of (title Sample.radio_moved) (description Sample.radio_moved)
                (location Sample.radio_moved)
  /\ calculate_content_hash Sample.radio
     = rbind (Utf8.encode (content_of (title Sample.radio)
                             (description Sample.radio) (location Sample.radio)))
             (fun bytes => Ok (Sha1.hexdigest bytes)).
Proof.
  destruct (fingerprint_follows_content Sample.radio Sample.radio_moved)
    as (_ & Hhash & Hone & _).
  split; [|exact Hhash].
  apply Hone. right. right. split; [reflexivity|]. split; [reflexivity|].
  discriminate.
Defined.

(* A first cycle on a store that does not exist yet publishes and records
   the sample; the next cycle, offered the same event twice, fails and
   leaves the record alone; a cycle whose post gets no data in answer
   records nothing. *)
Example first_cycle_records :
  run ascii_lower Sample.fair Sample.fresh
  = (Ok true,
     snd (run ascii_lower Sample.fair Sample.fresh))
  /\ file (snd (run ascii_lower Sample.fair Sample.fresh))
     = Stored [Sample.radio_record]
  /\ gen_calls (snd (run ascii_lower Sample.fair Sample.fresh)) = 1%nat.
Proof. vm_compute. repeat split; reflexivity. Qed.

Example second_cycle_fails :
  fst (run ascii_lower Sample.fair (Sample.world_with [Sample.radio_record]))
  = Ok false
  /\ file (snd (run ascii_lower Sample.fair
                  (Sample.world_with [Sample.radio_record])))
     = Stored [Sample.radio_record]
  /\ gen_calls (snd (run ascii_lower Sample.fair
                       (Sample.world_with [Sample.radio_record]))) = 2%nat
  /\ verdicts (snd (run ascii_lower Sample.fair
                      (Sample.world_with [Sample.radio_record]))) = 2%nat.
Proof. vm_compute. repeat split; reflexivity. Qed.

Example empty_acknowledgment_fails :
  fst (run ascii_lower Sample.mute Sample.fresh) = Ok false
  /\ file (snd (run ascii_lower Sample.mute Sample.fresh)) = NoFile
  /\ posts (snd (run ascii_lower Sample.mute Sample.fresh)) = [].
Proof. vm_compute. repeat split; reflexivity. Qed.

(* ===================================================================== *)
(* More properties of the program                                          *)
(* ===================================================================== *)

(* --------------------------------------------------------------------- *)
(* format_post_text, in full                                               *)
(* --------------------------------------------------------------------- *)

Lemma length_slice_to (s : str) (n : Z) :
  Z.of_nat (length (slice_to s n))
  = if 0 <=? n then Z.min n (Z.of_nat (length s))
    else Z.max 0 (Z.of_nat (length s) + n).
Proof.
  unfold slice_to. destruct (Z.leb_spec 0 n); rewrite length_take; lia.
Qed.

(** X1: the text format_post_text returns has at most 280 characters
    exactly when the header has at most 277 or the text composed at first
    has at most 280. *)
Theorem format_post_text_within_cap_iff (event : Event) :
  (length (format_post_text event) <= 280)%nat
  <-> (length (header_of event) <= 277)%nat
      \/ (length (header_of event ++ description event) <= 280)%nat.
Proof.
  unfold format_post_text.
  destruct (Nat.ltb_spec 280 (length (header_of event ++ description event)))
    as [Hlong|Hshort]; [|tauto].
  rewrite !length_app, length_lit_dots.
  pose proof (length_slice_to (description event)
                (280 - Z.of_nat (length (header_of event)) - 3)) as Hs.
  rewrite length_app in Hlong.
  destruct (Z.leb_spec 0 (280 - Z.of_nat (length (header_of event)) - 3));
    split; intros Hcap; lia.
Qed.

(** X2: a text of at most 280 characters is returned as composed, header
    and description.  A longer one, when the header has at most 277
    characters, comes back with exactly 280 characters: the header, the
    first 277 - len(header) characters of the description, and the
    ellipsis. *)
Theorem format_post_text_shape (event : Event) :
  ((length (header_of event ++ description event) <= 280)%nat ->
   format_post_text event = header_of event ++ description event)
  /\ ((280 < length (header_of event ++ description event))%nat ->
      (length (header_of event) <= 277)%nat ->
      format_post_text event
      = header_of event
        ++ take (277 - length (header_of event)) (description event)
        ++ lit "..."
      /\ length (format_post_text event) = 280%nat).
Proof.
  unfold format_post_text. split.
  - intros Hshort.
    destruct (Nat.ltb_spec 280 (length (header_of event ++ description event)));
      [lia|reflexivity].
  - intros Hlong Hh.
    destruct (Nat.ltb_spec 280 (length (header_of event ++ description event)));
      [|lia].
    assert (slice_to (description event)
              (280 - Z.of_nat (length (header_of event)) - 3)
            = take (277 - length (header_of event)) (description event)) as ->.
    { unfold slice_to.
      destruct (Z.leb_spec 0 (280 - Z.of_nat (length (header_of event)) - 3));
        [|lia].
      f_equal. lia. }
    split; [reflexivity|].
    rewrite length_app in Hlong.
    rewrite !length_app, length_take, length_lit_dots. lia.
Qed.

Lemma format_post_text_shape_witness :
  format_post_text Sample.long_text
  = header_of Sample.long_text
    ++ take (277 - length (header_of Sample.long_text))
            (description Sample.long_text)
    ++ lit "..."
  /\ length (format_post_text Sample.long_text) = 280%nat.
Proof.
  destruct (format_post_text_shape Sample.long_text) as [_ Hlong].
  apply Hlong; vm_compute; lia.
Defined.

(* --------------------------------------------------------------------- *)
(* The fingerprint: its form, and when there is none                       *)
(* --------------------------------------------------------------------- *)

Lemma length_hex (k : nat) (x : Z) : length (Sha1.hex k x) = k.
Proof.
  revert x. induction k as [|k IH]; intros x; [reflexivity|].
  cbn [Sha1.hex]. rewrite length_app, IH. simpl. lia.
Qed.

Lemma hex_digit_is_hex (d : Z) :
  0 <= d < 16 -> is_hex_digit (Sha1.hex_digit d) = true.
Proof.
  intros Hd. unfold Sha1.hex_digit, is_hex_digit.
  destruct (Z.ltb_spec d 10).
  - assert (48 <= Z.to_N (48 + d) <= 57)%N as [H1 H2] by lia.
    apply N.leb_le in H1, H2. rewrite H1, H2. reflexivity.
  - assert (97 <= Z.to_N (87 + d) <= 102)%N as [H1 H2] by lia.
    apply N.leb_le in H1, H2. rewrite H1, H2. apply orb_true_r.
Qed.

Lemma hex_is_hex (k : nat) (x : Z) : forallb is_hex_digit (Sha1.hex k x) = true.
Proof.
  revert x. induction k as [|k IH]; intros x; [reflexivity|].
  cbn [Sha1.hex]. rewrite forallb_app, IH. simpl.
  rewrite hex_digit_is_hex; [reflexivity|]. apply Z.mod_pos_bound. lia.
Qed.

Lemma encode_char_encodable (c : char) :
  encodable c = true <-> exists bs, Utf8.encode_char c = Some bs.
Proof.
  unfold encodable, Utf8.encode_char.
  repeat match goal with
         | |- context [(?a <? ?b)] => destruct (Z.ltb_spec a b)
         | |- context [(?a <=? ?b)] => destruct (Z.leb_spec a b)
         | |- context [(?a <? ?b)%N] => destruct (N.ltb_spec a b)
         end; cbn [andb orb]; split;
    try (intros _; eexists; reflexivity);
    try (intros Hx; discriminate Hx);
    try (intros [bs Hbs]; discriminate Hbs);
    try reflexivity; try lia.
Qed.

Lemma encode_encodable (s : str) :
  (forallb encodable s = true -> exists bs, Utf8.encode s = Ok bs)
  /\ (forallb encodable s = false -> Utf8.encode s = Raise UnicodeEncodeError).
Proof.
  induction s as [|c s [IHok IHno]]; simpl.
  - split; [eauto|discriminate].
  - destruct (encodable c) eqn:Hc; simpl.
    + apply encode_char_encodable in Hc as [b Hb]. rewrite Hb. split.
      * intros Hs. destruct (IHok Hs) as [bs ->]. simpl. eauto.
      * intros Hs. rewrite (IHno Hs). reflexivity.
    + destruct (Utf8.encode_char c) as [b|] eqn:Hb.
      * assert (encodable c = true) by (apply encode_char_encodable; eauto).
        congruence.
      * split; [discriminate|reflexivity].
Qed.

Lemma forallb_encodable_content (t d l : str) :
  forallb encodable (content_of t d l) = forallb encodable (t ++ d ++ l).
Proof.
  unfold content_of. rewrite !forallb_app.
  change (forallb encodable (lit "|")) with true.
  cbn [andb]. reflexivity.
Qed.

(** X3: a fingerprint is a string of 40 lower-case hexadecimal digits. *)
Theorem fingerprint_is_forty_hex_digits (event : Event) (h : str) :
  calculate_content_hash event = Ok h ->
  length h = 40%nat /\ forallb is_hex_digit h = true.
Proof.
  unfold calculate_content_hash.
  destruct (Utf8.encode _) as [bs|]; simpl; [|discriminate].
  intros H. injection H as <-. unfold Sha1.hexdigest.
  split; [apply length_hex|apply hex_is_hex].
Qed.

Lemma fingerprint_is_forty_hex_digits_witness :
  length Sample.radio_hash = 40%nat
  /\ forallb is_hex_digit Sample.radio_hash = true.
Proof.
  apply (fingerprint_is_forty_hex_digits Sample.radio Sample.radio_hash).
  vm_compute. reflexivity.
Defined.

(** X4: calculate_content_hash returns a fingerprint when every character
    of the title, the description and the location can be encoded in
    UTF-8, and raises UnicodeEncodeError when one of them cannot: a
    surrogate (U+D800 to U+DFFF). *)
Theorem fingerprint_needs_encodable_text (event : Event) :
  (forallb encodable (title event ++ description event ++ location event) = true ->
   exists h, calculate_content_hash event = Ok h)
  /\ (forallb encodable (title event ++ description event ++ location event)
      = false ->
      calculate_content_hash event = Raise UnicodeEncodeError).
Proof.
  unfold calculate_content_hash. rewrite <- forallb_encodable_content.
  destruct (encode_encodable
              (content_of (title event) (description event) (location event)))
    as [Hok Hno].
  split; intros H.
  - destruct (Hok H) as [bs ->]. simpl. eauto.
  - rewrite (Hno H). reflexivity.
Qed.

(* --------------------------------------------------------------------- *)
(* The gate and the growing history                                        *)
(* --------------------------------------------------------------------- *)

Lemma hash_pass_app (h h' : list (gmap str json)) (new_hash : str) :
  hash_pass (h ++ h') new_hash = hash_pass h new_hash || hash_pass h' new_hash.
Proof. unfold hash_pass. apply existsb_app. Qed.

Lemma similarity_pass_app_rejected (lower : str -> str) (new_words : gset str)
    (threshold : float) (h h' : list (gmap str json)) :
  similarity_pass lower new_words threshold h = Ok false ->
  similarity_pass lower new_words threshold (h ++ h') = Ok false.
Proof.
  induction h as [|entry h IH]; simpl; [discriminate|].
  destruct (existing_words_of lower entry) as [ws|]; simpl; [|discriminate].
  destruct (PrimFloat.ltb threshold _); [reflexivity|exact IH].
Qed.

Lemma check_uniqueness_stored (lower : str -> str) (event : Event)
    (threshold : float) (w : world) :
  fst (check_uniqueness lower event threshold w)
  = rbind (calculate_content_hash event) (fun new_hash =>
      if hash_pass (loaded (file w)) new_hash then Ok false
      else similarity_pass lower (new_words_of lower event) threshold
             (loaded (file w))).
Proof.
  destruct (load_history_log_loaded w) as (w1 & Hload & _).
  unfold check_uniqueness, bind, lift. rewrite Hload.
  destruct (calculate_content_hash event) as [new_hash|]; simpl; [|reflexivity].
  destruct (hash_pass (loaded (file w)) new_hash); [reflexivity|].
  destruct (similarity_pass _ _ _ _) as [[]|]; reflexivity.
Qed.

(** X5: more history never turns a rejection into an acceptance.  When
    check_uniqueness returns False against a history, it returns False
    against every history that goes on from it, whatever the further
    records hold. *)
Theorem rejection_survives_growth
    (lower : str -> str) (event : Event) (threshold : float)
    (w w' : world) (h h' : list (gmap str json)) :
  file w = Stored h ->
  file w' = Stored (h ++ h') ->
  fst (check_uniqueness lower event threshold w) = Ok false ->
  fst (check_uniqueness lower event threshold w') = Ok false.
Proof.
  intros Hw Hw'. rewrite !check_uniqueness_stored, Hw, Hw'. cbn [loaded].
  destruct (calculate_content_hash event) as [new_hash|]; simpl; [|discriminate].
  rewrite hash_pass_app.
  destruct (hash_pass h new_hash); [reflexivity|]. cbn [orb].
  intros Hrej. destruct (hash_pass h' new_hash); [reflexivity|].
  apply similarity_pass_app_rejected, Hrej.
Qed.

Lemma rejection_survives_growth_witness :
  fst (check_uniqueness ascii_lower Sample.radio default_threshold
         (Sample.world_with ([Sample.radio_record] ++ [Sample.broken])))
  = Ok false.
Proof.
  apply (rejection_survives_growth ascii_lower Sample.radio default_threshold
           (Sample.world_with [Sample.radio_record])
           (Sample.world_with ([Sample.radio_record] ++ [Sample.broken]))
           [Sample.radio_record] [Sample.broken]).
  - reflexivity.
  - reflexivity.
  - vm_compute. reflexivity.
Defined.

(** X6: check_uniqueness only reads.  Whatever it returns, the file, the
    posts and the counts of requests are as before; when it returns a
    verdict it has logged exactly one verdict line. *)
Theorem check_uniqueness_only_reads
    (lower : str -> str) (event : Event) (threshold : float)
    (w w' : world) (r : result bool) :
  check_uniqueness lower event threshold w = (r, w') ->
  file w' = file w
  /\ posts w' = posts w
  /\ gen_calls w' = gen_calls w
  /\ image_calls w' = image_calls w
  /\ (forall b, r = Ok b -> verdicts w' = (verdicts w + 1)%nat)
  /\ (forall e, r = Raise e -> verdicts w' = verdicts w).
Proof.
  intros Hrun.
  destruct (check_uniqueness_effect lower _ _ _ _ _ Hrun) as [Hf Hcases].
  split; [exact Hf|].
  destruct Hcases as [(b & h & -> & _ & (Hg & Hi & Hv & Hp))
                     |(e & -> & (Hg & Hi & Hv & Hp))];
    rewrite app_nil_r in Hp; repeat split; try lia; try assumption;
    intros ? Heq; try discriminate Heq; lia.
Qed.

Lemma check_uniqueness_only_reads_witness :
  exists (r : result bool) (w' : world),
    check_uniqueness ascii_lower Sample.radio default_threshold
      (Sample.world_with [Sample.radio_record]) = (r, w')
    /\ file w' = Stored [Sample.radio_record]
    /\ posts w' = [].
Proof.
  destruct (check_uniqueness ascii_lower Sample.radio default_threshold
              (Sample.world_with [Sample.radio_record])) as [r w'] eqn:Hrun.
  exists r, w'. split; [reflexivity|].
  destruct (check_uniqueness_only_reads ascii_lower Sample.radio
              default_threshold (Sample.world_with [Sample.radio_record])
              w' r Hrun) as (Hf & Hp & _).
  split; assumption.
Defined.

(** X7: with nothing to compare with, every event passes.  When the file
    is missing, unreadable or holds an empty list, check_uniqueness returns
    True for every event that has a fingerprint; an unreadable file so makes
    the gate accept what was published before. *)
Theorem empty_history_accepts
    (lower : str -> str) (event : Event) (threshold : float)
    (w : world) (h : str) :
  loaded (file w) = [] ->
  calculate_content_hash event = Ok h ->
  fst (check_uniqueness lower event threshold w) = Ok true.
Proof.
  intros Hempty Hhash. rewrite check_uniqueness_stored, Hempty, Hhash.
  reflexivity.
Qed.

Lemma empty_history_accepts_witness :
  fst (check_uniqueness ascii_lower Sample.radio default_threshold
         (mkWorld Garbled [] 0 0 [])) = Ok true.
Proof.
  apply (empty_history_accepts ascii_lower Sample.radio default_threshold
           (mkWorld Garbled [] 0 0 []) Sample.radio_hash).
  - reflexivity.
  - vm_compute. reflexivity.
Defined.

(* --------------------------------------------------------------------- *)
(* The record of a published event                                         *)
(* --------------------------------------------------------------------- *)

Lemma event_entry_lookups (env : oracle) (event : Event) (image_path hash : str) :
  let entry := event_entry_of env event image_path hash in
  entry !! k_timestamp = Some (JStr (now env))
  /\ entry !! k_title = Some (JStr (title event))
  /\ entry !! k_date = Some (JStr (date event))
  /\ entry !! k_location = Some (JStr (location event))
  /\ entry !! k_description = Some (JStr (description event))
  /\ entry !! k_image_prompt = Some (JStr (image_prompt event))
  /\ entry !! k_image_path = Some (JStr image_path)
  /\ entry !! k_hash = Some (JStr hash).
Proof.
  cbv zeta. unfold event_entry_of.
  repeat split;
    repeat (rewrite lookup_insert_ne by discriminate);
    apply lookup_insert_eq.
Qed.

(** X8: the record that run builds for an event can be read back: its
    five text fields give the event again, it has the eight keys of the
    log and no other, and the fingerprint it stores under 'hash' is the one
    calculate_content_hash computes from the stored title, description and
    location. *)
Theorem stored_record_reads_back
    (env : oracle) (event : Event) (image_path hash : str) :
  calculate_content_hash event = Ok hash ->
  let entry := event_entry_of env event image_path hash in
  event_of_record entry = event
  /\ calculate_content_hash (event_of_record entry) = Ok hash
  /\ entry !! k_hash = Some (JStr hash)
  /\ entry !! k_image_path = Some (JStr image_path)
  /\ entry !! k_timestamp = Some (JStr (now env))
  /\ dom entry
     = list_to_set [k_timestamp; k_title; k_date; k_location; k_description;
                    k_image_prompt; k_image_path; k_hash]
  /\ partial_record entry = true.
Proof.
  intros Hhash entry.
  destruct (event_entry_lookups env event image_path hash)
    as (Hts & Ht & Hd & Hl & Hds & Hip & Hpath & Hh).
  fold entry in Hts, Ht, Hd, Hl, Hds, Hip, Hpath, Hh.
  assert (event_of_record entry = event) as Hback.
  { unfold event_of_record, text_of. rewrite Ht, Hd, Hl, Hds, Hip.
    destruct event; reflexivity. }
  split; [exact Hback|]. rewrite Hback.
  split; [exact Hhash|]. split; [exact Hh|]. split; [exact Hpath|].
  split; [exact Hts|]. split.
  - unfold entry, event_entry_of. rewrite !dom_insert_L, dom_empty_L.
    set_solver.
  - unfold partial_record. rewrite Ht, Hds, Hl. reflexivity.
Qed.

Lemma stored_record_reads_back_witness :
  event_of_record Sample.radio_record = Sample.radio
  /\ calculate_content_hash (event_of_record Sample.radio_record)
     = Ok Sample.radio_hash
  /\ Sample.radio_record !! k_hash = Some (JStr Sample.radio_hash).
Proof.
  destruct (stored_record_reads_back Sample.fair Sample.radio
              (lit "generated_images/x.png") Sample.radio_hash)
    as (Hback & Hrehash & Hhash & _).
  - vm_compute. reflexivity.
  - split; [exact Hback|]. split; [exact Hrehash|exact Hhash].
Defined.

(** X9: an event that has its record in the log is rejected.  For a
    history that ends with the record run builds for the event, whatever
    the records before it hold, check_uniqueness returns False at every
    threshold. *)
Theorem recorded_event_is_rejected
    (lower : str -> str) (env : oracle) (event : Event) (threshold : float)
    (w : world) (h : list (gmap str json)) (image_path hash : str) :
  calculate_content_hash event = Ok hash ->
  file w = Stored (h ++ [event_entry_of env event image_path hash]) ->
  fst (check_uniqueness lower event threshold w) = Ok false.
Proof.
  intros Hhash Hw. rewrite check_uniqueness_stored, Hw, Hhash. cbn [loaded rbind].
  rewrite hash_pass_app.
  assert (hash_pass [event_entry_of env event image_path hash] hash = true) as ->.
  { apply hash_pass_elem. eexists. split; [apply list_elem_of_here|].
    apply event_entry_lookups. }
  rewrite orb_true_r. reflexivity.
Qed.

Lemma recorded_event_is_rejected_witness :
  fst (check_uniqueness ascii_lower Sample.radio default_threshold
         (Sample.world_with
            ([Sample.broken]
             ++ [event_entry_of Sample.fair Sample.radio
                   (lit "generated_images/x.png") Sample.radio_hash])))
  = Ok false.
Proof.
  apply (recorded_event_is_rejected ascii_lower Sample.fair Sample.radio
           default_threshold _ [Sample.broken]
           (lit "generated_images/x.png") Sample.radio_hash).
  - vm_compute. reflexivity.
  - reflexivity.
Defined.

(* --------------------------------------------------------------------- *)
(* The cycle, forwards                                                     *)
(* --------------------------------------------------------------------- *)

Section CycleForward.

Variable lower : str -> str.
Variable env : oracle.

Lemma gate_verdict_eq (event : Event) (f : file_state) :
  gate_verdict lower event f
  = rbind (calculate_content_hash event) (fun new_hash =>
      if hash_pass (loaded f) new_hash then Ok false
      else similarity_pass lower (new_words_of lower event) default_threshold
             (loaded f)).
Proof. unfold gate_verdict. apply check_uniqueness_stored. Qed.

Lemma gate_verdict_has_hash (event : Event) (f : file_state) (b : bool) :
  gate_verdict lower event f = Ok b -> exists h, calculate_content_hash event = Ok h.
Proof.
  rewrite gate_verdict_eq.
  destruct (calculate_content_hash event) as [h|]; [eauto|discriminate].
Qed.

Lemma candidate_accepted (w : world) (event : Event) :
  candidate lower env w = Some event ->
  gate_verdict lower event (file w) = Ok true.
Proof.
  unfold candidate.
  destruct (generated env (gen_calls w)) as [e1|]; [|discriminate].
  destruct (gate_verdict lower e1 (file w)) as [[]|] eqn:V1; [| |discriminate].
  - intros H; injection H as <-. exact V1.
  - destruct (generated env (S (gen_calls w))) as [e2|]; [|discriminate].
    destruct (gate_verdict lower e2 (file w)) as [[]|] eqn:V2; try discriminate.
    intros H; injection H as <-. exact V2.
Qed.

(* With a candidate, run is the rest of the cycle on that candidate, in a
   world that differs from the first by the log and the requests to the
   text generator. *)
Lemma run_with_candidate (w : world) (event : Event) :
  candidate lower env w = Some event ->
  exists w2,
    file w2 = file w /\ posts w2 = posts w /\ image_calls w2 = image_calls w
    /\ run lower env w = caught (illustrate_publish_record env event w2).
Proof.
  unfold candidate. intros Hcand.
  unfold run, try_except, bind. rewrite !logger_eq.
  set (wa := logged INFO "Starting History Rewritten bot..." w).
  set (wb := logged INFO "Generating alternate history event..." wa).
  assert (gen_calls wb = gen_calls w) as Cb by reflexivity.
  assert (file wb = file w) as Fb by reflexivity.
  destruct (generate_event env wb) as [r1 w1] eqn:Hg1.
  pose proof (generate_event_effect env _ _ _ Hg1) as (F1 & (G1 & I1 & _ & P1) & R1).
  rewrite Cb in R1. rewrite <- R1 in Hcand.
  destruct r1 as [e1|]; [|discriminate]. rewrite logger_eq.
  set (wc := logged INFO "Checking event uniqueness..." w1).
  assert (file wc = file w) as Fc by (cbn [wc file logged]; congruence).
  pose proof (check_uniqueness_verdict lower e1 wc) as V1. rewrite Fc in V1.
  destruct (check_uniqueness lower e1 default_threshold wc) as [r2 w2] eqn:Hc1.
  cbn [fst] in V1. rewrite <- V1 in Hcand.
  pose proof (check_uniqueness_effect lower _ _ _ _ _ Hc1) as (F2 & E2).
  assert (posts w2 = posts w /\ image_calls w2 = image_calls w
          /\ gen_calls w2 = S (gen_calls w)) as (P2 & I2 & C2).
  { destruct E2 as [(b & h & _ & _ & (Hg & Hi & _ & Hp))
                   |(x & _ & (Hg & Hi & _ & Hp))];
      cbn [wc posts image_calls gen_calls logged] in Hg, Hi, Hp;
      rewrite app_nil_r in *; rewrite Hp, P1, Hi, I1, Hg, G1, Cb;
      cbn [wb wa posts image_calls logged]; repeat split; lia. }
  destruct r2 as [[]|]; [| |discriminate]; cbn [negb]; cbv beta iota.
  - injection Hcand as <-. exists w2.
    split; [congruence|]. split; [exact P2|]. split; [exact I2|].
    destruct (illustrate_publish_record env e1 w2) as [[b|x] w3]; reflexivity.
  - rewrite logger_eq.
    set (wd := logged INFO "Event too similar to previous posts, trying again..." w2)
      in *.
    assert (gen_calls wd = S (gen_calls w)) as Cd by exact C2.
    destruct (generate_event env wd) as [r3 w3] eqn:Hg2.
    pose proof (generate_event_effect env _ _ _ Hg2)
      as (F3 & (G3 & I3 & _ & P3) & R3).
    rewrite Cd in R3. rewrite <- R3 in Hcand.
    destruct r3 as [e2|]; [|discriminate].
    assert (file w3 = file w) as F03 by (rewrite F3; cbn [wd file logged]; congruence).
    pose proof (check_uniqueness_verdict lower e2 w3) as V2. rewrite F03 in V2.
    destruct (check_uniqueness lower e2 default_threshold w3) as [r4 w4] eqn:Hc2.
    cbn [fst] in V2. rewrite <- V2 in Hcand.
    pose proof (check_uniqueness_effect lower _ _ _ _ _ Hc2) as (F4 & E4).
    destruct r4 as [[]|]; try discriminate. injection Hcand as <-.
    cbn [negb]; cbv beta iota.
    exists w4. split; [congruence|].
    assert (posts w4 = posts w /\ image_calls w4 = image_calls w) as [P4 I4].
    { destruct E4 as [(b & h & _ & _ & (Hg & Hi & _ & Hp))
                     |(x & Hx & _)]; [|discriminate].
      rewrite app_nil_r in *.
      rewrite Hp, P3, Hi, I3. cbn [wd posts image_calls logged].
      split; [exact P2|lia]. }
    split; [exact P4|]. split; [exact I4|].
    destruct (illustrate_publish_record env e2 w4) as [[b|x] w5]; reflexivity.
Qed.

(* The rest of the cycle when every collaborator answers. *)
Lemma illustrate_publish_record_forward (event : Event) (w : world)
    (image_path hash : str) (media_id tweet_id : nat) :
  image_answer env (image_prompt event) (title event) = Ok image_path ->
  upload_answer env image_path = Ok media_id ->
  tweet_answer env (format_post_text event) media_id = Ok (Some tweet_id) ->
  calculate_content_hash event = Ok hash ->
  exists w',
    illustrate_publish_record env event w
    = (match disk env with Written => Ok true | _ => Raise OSError end, w')
    /\ posts w' = posts w ++ [(format_post_text event, image_path)]
    /\ file w' = file_after env (file w) (event_entry_of env event image_path hash)
    /\ image_calls w' = S (image_calls w).
Proof.
  intros Himg Hup Htw Hhash. destruct w as [f l g i p].
  unfold illustrate_publish_record, generate_image, post_to_x, save_history_log,
    write_json, ask_image, create_tweet, try_except, bind, lift, ret, raise,
    file_after.
  destruct f; cbn; rewrite Himg; cbn; rewrite Hup; cbn; rewrite Htw; cbn;
    rewrite Hhash; cbn; destruct (disk env); cbn;
    eexists; (split; [reflexivity|]); cbn; auto.
Qed.

(* The rest of the cycle returns True only when every collaborator
   answered and the disk took the write. *)
Lemma illustrate_publish_record_true (event : Event) (w w' : world) :
  illustrate_publish_record env event w = (Ok true, w') ->
  exists image_path media_id tweet_id,
    image_answer env (image_prompt event) (title event) = Ok image_path
    /\ upload_answer env image_path = Ok media_id
    /\ tweet_answer env (format_post_text event) media_id = Ok (Some tweet_id)
    /\ disk env = Written.
Proof.
  destruct w as [f l g i p].
  unfold illustrate_publish_record, generate_image, post_to_x, save_history_log,
    write_json, ask_image, create_tweet, try_except, bind, lift, ret, raise.
  cbn.
  destruct (image_answer env (image_prompt event) (title event))
    as [image_path|] eqn:Himg; cbn; [|discriminate].
  destruct (upload_answer env image_path) as [media_id|] eqn:Hup; cbn;
    [|discriminate].
  destruct (tweet_answer env (format_post_text event) media_id)
    as [[tweet_id|]|] eqn:Htw; cbn; try discriminate.
  destruct f; cbn;
    (destruct (calculate_content_hash event); cbn; [|discriminate]);
    destruct (disk env) eqn:Hdisk; cbn; try discriminate;
    intros _; eauto 10.
Qed.

End CycleForward.

Lemma run_without_candidate_outcome (lower : str -> str) (env : oracle) (w : world) :
  candidate lower env w = None ->
  exists w', run lower env w = (Ok false, w')
             /\ posts w' = posts w /\ file w' = file w
             /\ image_calls w' = image_calls w.
Proof.
  intros Hnone.
  destruct (run_outcome lower env w)
    as (b & w' & dg & di & dv & dp & Hrun & (Hg & Hi & Hv & Hp) & Hend & Hcourse).
  unfold candidate in Hnone. unfold cycle_course in Hcourse.
  assert (b = false /\ di = 0%nat /\ dp = []) as (-> & -> & ->).
  { destruct (generated env (gen_calls w)) as [e1|]; [|tauto].
    destruct (gate_verdict lower e1 (file w)) as [[]|]; [discriminate| |tauto].
    destruct (generated env (S (gen_calls w))) as [e2|]; [|tauto].
    destruct (gate_verdict lower e2 (file w)) as [[]|]; [discriminate|tauto..]. }
  apply cycle_end_nothing in Hend as [_ Hf].
  exists w'. rewrite app_nil_r in Hp. rewrite Nat.add_0_r in Hi. auto.
Qed.

(** X10: when the cycle has a candidate (the first event if the gate
    accepts it, else the second if the gate accepts that one) and the image
    generator, the upload and create_tweet all answer, run posts the text
    format_post_text gives for that candidate with the image, and then
    records: it returns True exactly when the disk takes the write, and the
    file then holds the list loaded before with one record more, the record
    of the candidate with its image path and its fingerprint.  When the
    disk refuses, run returns False though the post is out, and the file is
    as before or unreadable. *)
Theorem run_publishes_candidate
    (lower : str -> str) (env : oracle) (w : world) (event : Event)
    (image_path : str) (media_id tweet_id : nat) :
  candidate lower env w = Some event ->
  image_answer env (image_prompt event) (title event) = Ok image_path ->
  upload_answer env image_path = Ok media_id ->
  tweet_answer env (format_post_text event) media_id = Ok (Some tweet_id) ->
  exists (hash : str) (w' : world),
    calculate_content_hash event = Ok hash
    /\ run lower env w = (Ok (write_taken env), w')
    /\ posts w' = posts w ++ [(format_post_text event, image_path)]
    /\ file w' = file_after env (file w)
                   (event_entry_of env event image_path hash)
    /\ image_calls w' = S (image_calls w).
Proof.
  intros Hcand Himg Hup Htw.
  destruct (gate_verdict_has_hash lower event (file w) true
              (candidate_accepted lower env w event Hcand)) as [hash Hhash].
  destruct (run_with_candidate lower env w event Hcand)
    as (w2 & F2 & P2 & I2 & Hrun).
  destruct (illustrate_publish_record_forward env event w2 image_path hash
              media_id tweet_id Himg Hup Htw Hhash)
    as (w3 & Htail & P3 & F3 & I3).
  rewrite Htail in Hrun. rewrite P2 in P3. rewrite F2 in F3. rewrite I2 in I3.
  exists hash. unfold write_taken.
  destruct (disk env) eqn:Hdisk; cbn [caught] in Hrun.
  - exists w3. auto.
  - eexists. split; [exact Hhash|]. split; [exact Hrun|].
    cbn [posts file image_calls logged]. auto.
  - eexists. split; [exact Hhash|]. split; [exact Hrun|].
    cbn [posts file image_calls logged]. auto.
Qed.

Lemma run_publishes_candidate_witness :
  exists (hash : str) (w' : world),
    calculate_content_hash Sample.radio = Ok hash
    /\ run ascii_lower Sample.fair Sample.fresh
       = (Ok (write_taken Sample.fair), w')
    /\ posts w' = posts Sample.fresh
                  ++ [(format_post_text Sample.radio, lit "generated_images/x.png")]
    /\ file w' = file_after Sample.fair (file Sample.fresh)
                   (event_entry_of Sample.fair Sample.radio
                      (lit "generated_images/x.png") hash)
    /\ image_calls w' = S (image_calls Sample.fresh).
Proof.
  apply (run_publishes_candidate ascii_lower Sample.fair Sample.fresh
           Sample.radio (lit "generated_images/x.png") 7 9).
  - vm_compute. reflexivity.
  - reflexivity.
  - reflexivity.
  - reflexivity.
Defined.

(** X11: run returns True exactly when the cycle has a candidate, the
    image generator returns a path for it, the upload returns a media id,
    create_tweet answers with data, and the disk takes the write. *)
Theorem run_returns_true_iff (lower : str -> str) (env : oracle) (w : world) :
  fst (run lower env w) = Ok true
  <-> exists event image_path media_id tweet_id,
        candidate lower env w = Some event
        /\ image_answer env (image_prompt event) (title event) = Ok image_path
        /\ upload_answer env image_path = Ok media_id
        /\ tweet_answer env (format_post_text event) media_id
           = Ok (Some tweet_id)
        /\ disk env = Written.
Proof.
  split.
  - intros Htrue.
    destruct (candidate lower env w) as [event|] eqn:Hcand.
    + destruct (run_with_candidate lower env w event Hcand)
        as (w2 & _ & _ & _ & Hrun).
      rewrite Hrun in Htrue.
      destruct (illustrate_publish_record env event w2) as [[[]|] w3] eqn:Htail;
        cbn in Htrue; try discriminate.
      destruct (illustrate_publish_record_true env event w2 w3 Htail)
        as (image_path & media_id & tweet_id & Himg & Hup & Htw & Hdisk).
      eauto 10.
    + destruct (run_without_candidate_outcome lower env w Hcand)
        as (w' & Hrun & _).
      rewrite Hrun in Htrue. discriminate.
  - intros (event & image_path & media_id & tweet_id
            & Hcand & Himg & Hup & Htw & Hdisk).
    destruct (gate_verdict_has_hash lower event (file w) true
                (candidate_accepted lower env w event Hcand)) as [hash Hhash].
    destruct (run_with_candidate lower env w event Hcand)
      as (w2 & _ & _ & _ & Hrun).
    destruct (illustrate_publish_record_forward env event w2 image_path hash
                media_id tweet_id Himg Hup Htw Hhash) as (w3 & Htail & _).
    rewrite Hrun, Htail, Hdisk. reflexivity.
Qed.

(** X12: without a candidate (the first generation fails, or the gate
    fails, or it rejects the first event and the second generation fails or
    the gate does not accept the second event) run returns False and goes
    no further: no request to the image generator, no post, the file as it
    was. *)
Theorem run_without_candidate (lower : str -> str) (env : oracle) (w : world) :
  candidate lower env w = None ->
  exists w', run lower env w = (Ok false, w')
             /\ image_calls w' = image_calls w
             /\ posts w' = posts w
             /\ file w' = file w.
Proof.
  intros Hnone.
  destruct (run_without_candidate_outcome lower env w Hnone)
    as (w' & Hrun & Hp & Hf & Hi).
  eauto.
Qed.

Lemma run_without_candidate_witness :
  exists w', run ascii_lower Sample.fair (Sample.world_with [Sample.radio_record])
             = (Ok false, w')
             /\ image_calls w' = 0%nat
             /\ posts w' = []
             /\ file w' = Stored [Sample.radio_record].
Proof.
  apply (run_without_candidate ascii_lower Sample.fair
           (Sample.world_with [Sample.radio_record])).
  vm_compute. reflexivity.
Defined.

(** X13: run never raises: whatever the collaborators, the disk and the
    file do, it returns True or False.  In one cycle it asks the image
    generator at most once and posts at most once, and it posts only after
    it asked for the image. *)
Theorem run_never_raises (lower : str -> str) (env : oracle) (w : world) :
  exists (b : bool) (w' : world),
    run lower env w = (Ok b, w')
    /\ (image_calls w' = image_calls w \/ image_calls w' = S (image_calls w))
    /\ (posts w' = posts w \/ exists post, posts w' = posts w ++ [post])
    /\ (posts w' <> posts w -> image_calls w' = S (image_calls w)).
Proof.
  destruct (candidate lower env w) as [event|] eqn:Hcand.
  - destruct (run_outcome lower env w)
      as (b & w' & dg & di & dv & dp & Hrun & (Hg & Hi & Hv & Hp) & Hend & Hcourse).
    exists b, w'. split; [exact Hrun|].
    assert (di = 1%nat) as ->.
    { unfold candidate in Hcand. unfold cycle_course in Hcourse.
      destruct (generated env (gen_calls w)) as [e1|]; [|discriminate].
      destruct (gate_verdict lower e1 (file w)) as [[]|]; [tauto| |discriminate].
      destruct (generated env (S (gen_calls w))) as [e2|]; [|discriminate].
      destruct (gate_verdict lower e2 (file w)) as [[]|];
        [tauto|discriminate..]. }
    split; [right; lia|]. split; [|intros _; lia].
    destruct Hend as [(_ & _ & post & entry & -> & _)
                     |[(_ & -> & _)|(_ & _ & (post & -> & _) & _)]];
      [right; eauto|left; rewrite app_nil_r in Hp; exact Hp|right; eauto].
  - destruct (run_without_candidate_outcome lower env w Hcand)
      as (w' & Hrun & Hp & Hf & Hi).
    exists false, w'. split; [exact Hrun|]. split; [left; exact Hi|].
    split; [left; exact Hp|]. intros Hne. contradiction.
Qed.

(** X14: a post can go out without a record.  When the cycle has a
    candidate, every collaborator answers and the disk refuses the write,
    run returns False with the post published, and the gate still accepts
    the same event against the file the cycle leaves: nothing stops a
    later cycle from posting it again. *)
Theorem unrecorded_post_can_repeat
    (lower : str -> str) (env : oracle) (w : world) (event : Event)
    (image_path : str) (media_id tweet_id : nat) :
  candidate lower env w = Some event ->
  image_answer env (image_prompt event) (title event) = Ok image_path ->
  upload_answer env image_path = Ok media_id ->
  tweet_answer env (format_post_text event) media_id = Ok (Some tweet_id) ->
  disk env <> Written ->
  exists w',
    run lower env w = (Ok false, w')
    /\ posts w' = posts w ++ [(format_post_text event, image_path)]
    /\ (file w' = file w \/ file w' = Garbled)
    /\ gate_verdict lower event (file w') = Ok true.
Proof.
  intros Hcand Himg Hup Htw Hdisk.
  pose proof (candidate_accepted lower env w event Hcand) as Hacc.
  destruct (gate_verdict_has_hash lower event (file w) true Hacc)
    as [hash Hhash].
  destruct (run_with_candidate lower env w event Hcand)
    as (w2 & F2 & P2 & _ & Hrun).
  destruct (illustrate_publish_record_forward env event w2 image_path hash
              media_id tweet_id Himg Hup Htw Hhash)
    as (w3 & Htail & Hp & Hf & _).
  rewrite Htail in Hrun. rewrite P2 in Hp. rewrite F2 in Hf.
  unfold file_after in Hf.
  destruct (disk env); [contradiction| |]; cbn [caught] in Hrun;
    eexists; (split; [exact Hrun|]); cbn [posts file logged];
    (split; [exact Hp|]).
  - split; [left; exact Hf|]. rewrite Hf. exact Hacc.
  - split; [right; exact Hf|]. rewrite Hf, gate_verdict_eq, Hhash.
    reflexivity.
Qed.

Lemma unrecorded_post_can_repeat_witness :
  exists w',
    run ascii_lower Cases.full_disk Sample.fresh = (Ok false, w')
    /\ posts w' = posts Sample.fresh
                  ++ [(format_post_text Sample.radio, lit "generated_images/x.png")]
    /\ (file w' = file Sample.fresh \/ file w' = Garbled)
    /\ gate_verdict ascii_lower Sample.radio (file w') = Ok true.
Proof.
  apply (unrecorded_post_can_repeat ascii_lower Cases.full_disk Sample.fresh
           Sample.radio (lit "generated_images/x.png") 7 9).
  - vm_compute. reflexivity.
  - reflexivity.
  - reflexivity.
  - reflexivity.
  - discriminate.
Defined.

(* --------------------------------------------------------------------- *)
(* The store over several cycles                                           *)
(* --------------------------------------------------------------------- *)

Lemma append_and_save_loaded (env : oracle) (w : world) (entry : gmap str json) :
  disk env = Written ->
  exists w', append_and_save env entry w = (Ok tt, w')
             /\ file w' = Stored (loaded (file w) ++ [entry]).
Proof.
  intros Hd. destruct (append_and_save_stored env w entry Hd) as (w' & H & Hf).
  exists w'. split; [exact H|]. rewrite Hf. destruct (file w); reflexivity.
Qed.

(** X15: record steps add up.  When the disk takes every write, a
    sequence of record steps succeeds and leaves in the file the list that
    was loaded before the first one followed by the new entries in the
    order of the calls; a file that was missing or unreadable counts as
    the empty list, so what an unreadable file held is gone after the first
    step. *)
Theorem appends_accumulate
    (env : oracle) (entries : list (gmap str json)) (w : world) :
  disk env = Written ->
  exists w',
    append_all env entries w = (Ok tt, w')
    /\ loaded (file w') = loaded (file w) ++ entries
    /\ fst (load_history_log w') = Ok (loaded (file w) ++ entries)
    /\ length (loaded (file w'))
       = (length (loaded (file w)) + length entries)%nat
    /\ (entries <> [] -> file w' = Stored (loaded (file w) ++ entries)).
Proof.
  intros Hd.
  assert (exists w', append_all env entries w = (Ok tt, w')
                     /\ loaded (file w') = loaded (file w) ++ entries
                     /\ (entries <> [] ->
                         file w' = Stored (loaded (file w) ++ entries)))
    as (w' & Hrun & Hl & Hf).
  { revert w. induction entries as [|entry rest IH]; intros w.
    - exists w. split; [reflexivity|]. rewrite app_nil_r.
      split; [reflexivity|]. intros Hne. contradiction.
    - destruct (append_and_save_loaded env w entry Hd) as (w1 & H1 & F1).
      destruct (IH w1) as (w2 & H2 & L2 & F2).
      exists w2. split; [simpl; unfold bind; rewrite H1; exact H2|].
      rewrite F1 in L2, F2. cbn [loaded] in L2, F2.
      rewrite <- app_assoc in L2, F2. split; [exact L2|].
      intros _. destruct rest as [|e' rest'].
      + simpl in H2. injection H2 as <-. rewrite F1. reflexivity.
      + apply F2. discriminate. }
  exists w'. split; [exact Hrun|]. split; [exact Hl|].
  destruct (load_history_log_loaded w') as (w2 & Hload & _).
  rewrite Hload, Hl. cbn [fst]. split; [reflexivity|].
  split; [apply length_app|exact Hf].
Qed.

Lemma appends_accumulate_witness :
  exists w',
    append_all Sample.fair [Sample.partial; Sample.radio_record]
      (mkWorld Garbled [] 0 0 []) = (Ok tt, w')
    /\ loaded (file w')
       = loaded Garbled ++ [Sample.partial; Sample.radio_record]
    /\ fst (load_history_log w')
       = Ok (loaded Garbled ++ [Sample.partial; Sample.radio_record])
    /\ length (loaded (file w'))
       = (length (loaded Garbled)
          + length [Sample.partial; Sample.radio_record])%nat
    /\ ([Sample.partial; Sample.radio_record] <> [] ->
        file w' = Stored (loaded Garbled ++ [Sample.partial; Sample.radio_record])).
Proof.
  exact (appends_accumulate Sample.fair [Sample.partial; Sample.radio_record]
           (mkWorld Garbled [] 0 0 []) eq_refl).
Defined.

(* --------------------------------------------------------------------- *)
(* post_to_x and generate_event                                            *)
(* --------------------------------------------------------------------- *)

(** X16: post_to_x never raises and never touches the history file.  It
    returns True exactly when the upload returns a media id and
    create_tweet answers with data for the text format_post_text composes;
    an exception of either call and an answer without data both give
    False.  The platform has one post more exactly when it returns True. *)
Theorem post_to_x_true_iff
    (env : oracle) (event : Event) (image_path : str) (w : world) :
  exists (posted : bool) (w' : world),
    post_to_x env event image_path w = (Ok posted, w')
    /\ file w' = file w
    /\ (posted = true
        <-> exists media_id tweet_id,
              upload_answer env image_path = Ok media_id
              /\ tweet_answer env (format_post_text event) media_id
                 = Ok (Some tweet_id))
    /\ posts w'
       = posts w ++ (if posted then [(format_post_text event, image_path)]
                     else []).
Proof.
  unfold post_to_x, try_except, bind, lift, create_tweet, ret.
  destruct w as [f l g i p].
  destruct (upload_answer env image_path) as [media_id|e] eqn:Hup; cbn.
  - destruct (tweet_answer env (format_post_text event) media_id)
      as [[tweet_id|]|e] eqn:Htw; cbn.
    + exists true. eexists. split; [reflexivity|]. cbn.
      split; [reflexivity|]. split; [|reflexivity].
      split; [intros _; eauto|reflexivity].
    + exists false. eexists. split; [reflexivity|]. cbn.
      split; [reflexivity|]. split; [|rewrite app_nil_r; reflexivity].
      split; [discriminate|].
      intros (m & t & Hm & Ht). injection Hm as <-. congruence.
    + exists false. eexists. split; [reflexivity|]. cbn.
      split; [reflexivity|]. split; [|rewrite app_nil_r; reflexivity].
      split; [discriminate|].
      intros (m & t & Hm & Ht). injection Hm as <-. congruence.
  - exists false. eexists. split; [reflexivity|]. cbn.
    split; [reflexivity|]. split; [|rewrite app_nil_r; reflexivity].
    split; [discriminate|]. intros (m & t & Hm & _). discriminate.
Qed.

(** X17: generate_event checks that the five required keys are present,
    and nothing more.  It sends exactly one request and leaves the file
    alone.  An exception of the collaborator is logged and raised again as
    it is; an answer that lacks one of date, location, title, description
    and image_prompt raises ValueError; an answer that has the five keys
    gives the event with their values, whatever the values are (an empty
    string passes) and whatever other keys the answer holds. *)
Theorem generate_event_checks_presence (env : oracle) (w : world) :
  gen_calls (snd (generate_event env w)) = S (gen_calls w)
  /\ file (snd (generate_event env w)) = file w
  /\ (forall e,
        chat_answer env (gen_calls w) = Raise e ->
        generate_event env w
        = (Raise e,
           logged ERROR "Error generating event"
             (mkWorld (file w) (log w) (S (gen_calls w)) (image_calls w)
                      (posts w))))
  /\ (forall event_data key,
        chat_answer env (gen_calls w) = Ok event_data ->
        key ∈ required_fields ->
        event_data !! key = None ->
        generate_event env w
        = (Raise ValueError,
           logged ERROR "Error generating event"
             (mkWorld (file w) (log w) (S (gen_calls w)) (image_calls w)
                      (posts w))))
  /\ (forall event_data,
        chat_answer env (gen_calls w) = Ok event_data ->
        (forall key, key ∈ required_fields -> is_Some (event_data !! key)) ->
        exists event,
          fst (generate_event env w) = Ok event
          /\ event_data !! k_date = Some (date event)
          /\ event_data !! k_location = Some (location event)
          /\ event_data !! k_title = Some (title event)
          /\ event_data !! k_description = Some (description event)
          /\ event_data !! k_image_prompt = Some (image_prompt event)).
Proof.
  unfold generate_event, try_except, bind, ask_chat, raise, ret.
  destruct w as [f l g i p]. cbn [file log gen_calls image_calls posts].
  split; [|split; [|split; [|split]]].
  - destruct (chat_answer env g) as [d|]; cbv beta iota; [|reflexivity].
    destruct (forallb _ required_fields); reflexivity.
  - destruct (chat_answer env g) as [d|]; cbv beta iota; [|reflexivity].
    destruct (forallb _ required_fields); reflexivity.
  - intros e ->. reflexivity.
  - intros d key -> Hin Hnone. cbv beta iota.
    assert (forallb (fun f0 => bool_decide (is_Some (d !! f0))) required_fields
            = false) as ->.
    { apply not_true_is_false. intros Hall. rewrite forallb_forall in Hall.
      specialize (Hall key (proj1 (list_elem_of_In _ _) Hin)).
      apply bool_decide_eq_true_1 in Hall. rewrite Hnone in Hall.
      destruct Hall as [x Hx]. discriminate. }
    reflexivity.
  - intros d -> Hall. cbv beta iota.
    assert (forallb (fun f0 => bool_decide (is_Some (d !! f0))) required_fields
            = true) as ->.
    { apply forallb_forall. intros key Hin. apply bool_decide_eq_true_2.
      apply Hall, list_elem_of_In, Hin. }
    cbn. eexists. split; [reflexivity|]. cbn [date location title description
                                              image_prompt].
    assert (forall key, key ∈ required_fields ->
              d !! key = Some (field d key)) as Hval.
    { intros key Hin. destruct (Hall key Hin) as [v Hv].
      rewrite Hv. f_equal. symmetry.
      exact (f_equal (default []) Hv). }
    repeat split; apply Hval; unfold required_fields; set_solver.
Qed.

Lemma generate_event_checks_presence_witness :
  exists event,
    fst (generate_event Sample.fair Sample.fresh) = Ok event
    /\ Sample.radio_dict !! k_title = Some (title event)
    /\ Sample.radio_dict !! k_description = Some (description event).
Proof.
  destruct (generate_event_checks_presence Sample.fair Sample.fresh)
    as (_ & _ & _ & _ & Hok).
  destruct (Hok Sample.radio_dict eq_refl) as (event & Hev & _ & _ & Ht & Hd & _).
  - intros key Hin. unfold required_fields in Hin.
    repeat (apply elem_of_cons in Hin as [->|Hin]; [vm_compute; eauto|]).
    apply not_elem_of_nil in Hin. contradiction.
  - exists event. auto.
Defined.

(* --------------------------------------------------------------------- *)
(* The answer of the chat model before json.loads                          *)
(* --------------------------------------------------------------------- *)

Lemma lstrip_spaces (ws s : str) :
  forallb isspace ws = true -> lstrip (ws ++ s) = lstrip s.
Proof.
  induction ws as [|c ws IH]; simpl; [reflexivity|].
  intros H. apply andb_prop in H as [Hc Hws]. rewrite Hc. apply IH, Hws.
Qed.

Lemma lstrip_solid (c : char) (s : str) :
  isspace c = false -> lstrip (c :: s) = c :: s.
Proof. intros Hc. simpl. rewrite Hc. reflexivity. Qed.

Lemma rstrip_spaces (s ws : str) :
  forallb isspace ws = true -> rstrip (s ++ ws) = rstrip s.
Proof.
  intros Hws. unfold rstrip. rewrite rev_app_distr, lstrip_spaces; [reflexivity|].
  rewrite forallb_forall in *. intros c Hc. apply Hws, in_rev, Hc.
Qed.

Lemma rstrip_solid (s : str) (c : char) :
  isspace c = false -> rstrip (s ++ [c]) = s ++ [c].
Proof.
  intros Hc. unfold rstrip. rewrite rev_app_distr. simpl.
  rewrite Hc. simpl. rewrite rev_involutive. reflexivity.
Qed.

(* What is stripped is at the ends. *)
Lemma lstrip_suffix (s : str) : exists pre, s = pre ++ lstrip s.
Proof.
  induction s as [|c s [pre IH]]; [exists []; reflexivity|].
  simpl. destruct (isspace c).
  - exists (c :: pre). simpl. f_equal. exact IH.
  - exists []. reflexivity.
Qed.

Lemma rstrip_prefix (s : str) : exists post, s = rstrip s ++ post.
Proof.
  unfold rstrip. destruct (lstrip_suffix (rev s)) as [pre H].
  exists (rev pre). rewrite <- rev_app_distr, <- H, rev_involutive. reflexivity.
Qed.

Lemma strip_infix (s : str) : exists pre post, s = pre ++ strip s ++ post.
Proof.
  unfold strip. destruct (lstrip_suffix s) as [pre Hpre].
  destruct (rstrip_prefix (lstrip s)) as [post Hpost].
  exists pre, post. rewrite <- Hpost. exact Hpre.
Qed.

Lemma slice_to_infix (s : str) (n : Z) : exists post, s = slice_to s n ++ post.
Proof.
  unfold slice_to. destruct (0 <=? n); eexists; symmetry; apply take_drop.
Qed.

(** X18: an answer wrapped in a json code fence is unwrapped.  For every
    text, with white space or not around the fence, what
    generate_event hands to json.loads for
    <space> ```json <text> ``` <space> is the text between the fences,
    unchanged. *)
Theorem clean_content_unwraps (ws1 ws2 body : str) :
  forallb isspace ws1 = true ->
  forallb isspace ws2 = true ->
  clean_content (ws1 ++ fence_json ++ body ++ fence ++ ws2) = body.
Proof.
  intros H1 H2. unfold clean_content.
  assert (strip (ws1 ++ fence_json ++ body ++ fence ++ ws2)
          = fence_json ++ body ++ fence) as ->.
  { unfold strip. rewrite lstrip_spaces by exact H1.
    change (fence_json ++ body ++ fence ++ ws2)
      with (96%N :: (lit "``json" ++ body ++ fence ++ ws2)).
    rewrite lstrip_solid by reflexivity.
    change (96%N :: (lit "``json" ++ body ++ fence ++ ws2))
      with (fence_json ++ body ++ fence ++ ws2).
    replace (fence_json ++ body ++ fence ++ ws2)
      with ((fence_json ++ body ++ fence) ++ ws2)
      by (rewrite <- !app_assoc; reflexivity).
    rewrite rstrip_spaces by exact H2.
    replace (fence_json ++ body ++ fence)
      with ((fence_json ++ body ++ lit "``") ++ [96%N])
      by (rewrite <- !app_assoc; reflexivity).
    apply rstrip_solid. reflexivity. }
  cbv zeta.
  assert (startswith (fence_json ++ body ++ fence) fence_json = true) as ->.
  { unfold startswith. apply bool_decide_eq_true_2. reflexivity. }
  change (drop 7 (fence_json ++ body ++ fence)) with (body ++ fence).
  assert (endswith (body ++ fence) fence = true) as ->.
  { unfold endswith. apply bool_decide_eq_true_2.
    rewrite length_app. change (length fence) with 3%nat.
    replace (length body + 3 - 3)%nat with (length body) by lia.
    apply drop_app_length. }
  unfold slice_to. rewrite length_app. change (length fence) with 3%nat.
  destruct (Z.leb_spec 0 (-3)); [lia|].
  replace (Z.to_nat (Z.of_nat (length body + 3) + -3)) with (length body) by lia.
  apply take_app_length.
Qed.

Lemma clean_content_unwraps_witness :
  clean_content ([10%N] ++ fence_json ++ lit "{}" ++ fence ++ [32%N; 10%N])
  = lit "{}".
Proof.
  apply (clean_content_unwraps [10%N] [32%N; 10%N] (lit "{}")); reflexivity.
Defined.

(** X19: a fence that is opened without the json tag is not removed.  For
    a text between two plain fences that does not begin with the tag, only
    the closing fence goes: the three backquotes at the front are handed to
    json.loads with the text. *)
Theorem clean_content_keeps_plain_fence (body : str) :
  startswith (fence ++ body ++ fence) fence_json = false ->
  clean_content (fence ++ body ++ fence) = fence ++ body.
Proof.
  intros Hplain. unfold clean_content.
  assert (strip (fence ++ body ++ fence) = fence ++ body ++ fence) as ->.
  { unfold strip.
    change (fence ++ body ++ fence) with (96%N :: (lit "``" ++ body ++ fence)).
    rewrite lstrip_solid by reflexivity.
    change (96%N :: (lit "``" ++ body ++ fence)) with (fence ++ body ++ fence).
    replace (fence ++ body ++ fence)
      with ((fence ++ body ++ lit "``") ++ [96%N])
      by (rewrite <- !app_assoc; reflexivity).
    apply rstrip_solid. reflexivity. }
  cbv zeta. rewrite Hplain.
  replace (fence ++ body ++ fence) with ((fence ++ body) ++ fence)
    by (rewrite <- app_assoc; reflexivity).
  assert (endswith ((fence ++ body) ++ fence) fence = true) as ->.
  { unfold endswith. apply bool_decide_eq_true_2.
    rewrite (length_app (fence ++ body)). change (length fence) with 3%nat.
    replace (length (fence ++ body) + 3 - 3)%nat
      with (length (fence ++ body)) by lia.
    apply drop_app_length. }
  unfold slice_to. rewrite (length_app (fence ++ body)).
  change (length fence) with 3%nat.
  destruct (Z.leb_spec 0 (-3)); [lia|].
  replace (Z.to_nat (Z.of_nat (length (fence ++ body) + 3) + -3))
    with (length (fence ++ body)) by lia.
  apply take_app_length.
Qed.

Lemma clean_content_keeps_plain_fence_witness :
  clean_content (fence ++ ([10%N] ++ lit "{}" ++ [10%N]) ++ fence)
  = fence ++ ([10%N] ++ lit "{}" ++ [10%N]).
Proof.
  apply (clean_content_keeps_plain_fence ([10%N] ++ lit "{}" ++ [10%N])).
  reflexivity.
Defined.

(** X20: what is handed to json.loads is a piece of the answer: the
    cleaning removes characters at the two ends only and adds none. *)
Theorem clean_content_is_a_piece (raw : str) :
  exists pre post, raw = pre ++ clean_content raw ++ post.
Proof.
  unfold clean_content. destruct (strip_infix raw) as (pre & post & Hraw).
  set (content := strip raw) in *. cbv zeta.
  assert (exists pre1,
            content = pre1 ++ (if startswith content fence_json
                               then drop 7 content else content))
    as [pre1 H1].
  { destruct (startswith content fence_json).
    - exists (take 7 content). symmetry. apply take_drop.
    - exists []. reflexivity. }
  set (content1 := if startswith content fence_json then drop 7 content
                   else content) in *.
  assert (exists post1,
            content1 = (if endswith content1 fence then slice_to content1 (-3)
                        else content1) ++ post1) as [post1 H2].
  { destruct (endswith content1 fence).
    - apply slice_to_infix.
    - exists []. rewrite app_nil_r. reflexivity. }
  exists (pre ++ pre1), (post1 ++ post).
  rewrite Hraw at 1. rewrite H1 at 1. rewrite H2 at 1.
  rewrite <- !app_assoc. reflexivity.
Qed.

(* --------------------------------------------------------------------- *)
(* The name of the image file                                              *)
(* --------------------------------------------------------------------- *)

Lemma in_lstrip (c : char) (s : str) : In c (lstrip s) -> In c s.
Proof.
  destruct (lstrip_suffix s) as [pre H]. intros Hin. rewrite H.
  apply in_or_app. right. exact Hin.
Qed.

Lemma in_rstrip (c : char) (s : str) : In c (rstrip s) -> In c s.
Proof.
  unfold rstrip. intros Hin. apply in_rev, in_lstrip, in_rev. exact Hin.
Qed.

Lemma in_take {A} (x : A) (n : nat) (l : list A) : In x (take n l) -> In x l.
Proof.
  intros Hin. rewrite <- (take_drop n l). apply in_or_app. left. exact Hin.
Qed.

Lemma lstrip_solid_all (s : str) :
  Forall (fun c => isspace c = false) s -> lstrip s = s.
Proof.
  destruct s as [|c s]; [reflexivity|]. intros Hs.
  apply lstrip_solid. exact (Forall_inv Hs).
Qed.

Lemma rstrip_solid_all (s : str) :
  Forall (fun c => isspace c = false) s -> rstrip s = s.
Proof.
  intros Hs. unfold rstrip.
  rewrite lstrip_solid_all by (apply Forall_rev, Hs).
  apply rev_involutive.
Qed.

Section ImageFacts.

Variable isalnum : char -> bool.

Lemma safe_title_chars (event_title : str) (c : char) :
  In c (safe_title_of isalnum event_title) ->
  (isalnum c = true \/ c = 95%N) /\ c <> 32%N.
Proof.
  unfold safe_title_of, replace_space. intros Hin.
  apply in_take, in_map_iff in Hin as (c0 & Hc & Hin0).
  apply in_rstrip, filter_In in Hin0 as [_ Hkept].
  unfold kept in Hkept.
  destruct (N.eqb_spec c0 32) as [Heq|Hne]; rewrite <- Hc.
  - split; [right; reflexivity|discriminate].
  - split; [|exact Hne].
    destruct (isalnum c0); [left; reflexivity|].
    right. apply N.eqb_eq. exact Hkept.
Qed.

Lemma length_safe_title (event_title : str) :
  (length (safe_title_of isalnum event_title) <= 50)%nat.
Proof. unfold safe_title_of. rewrite length_take. lia. Qed.

(** X21: the title part of the image file name is safe: at most 50
    characters, each of them alphanumeric or an underscore, and no space
    among them. *)
Theorem safe_title_is_safe (event_title : str) :
  (length (safe_title_of isalnum event_title) <= 50)%nat
  /\ Forall (fun c => (isalnum c = true \/ c = 95%N) /\ c <> 32%N)
            (safe_title_of isalnum event_title).
Proof.
  split.
  - apply length_safe_title.
  - apply Forall_forall. intros c Hin.
    apply (safe_title_chars event_title), list_elem_of_In, Hin.
Qed.

(** X22: the image file name holds no path separator.  When the slash is
    not alphanumeric and the time stamp holds none, the name
    <time stamp>_<safe title>.png holds none, so the file is written in the
    image directory itself; the name is at most 55 characters longer than
    the time stamp. *)
Theorem image_filename_has_no_separator (timestamp event_title : str) :
  isalnum 47%N = false ->
  ~ In 47%N timestamp ->
  ~ In 47%N (image_filename isalnum timestamp event_title)
  /\ (length (image_filename isalnum timestamp event_title)
      <= length timestamp + 55)%nat.
Proof.
  intros Hslash Hts. unfold image_filename. split.
  - intros Hin. apply in_app_or in Hin as [Hin|Hin]; [contradiction|].
    apply in_app_or in Hin as [Hin|Hin].
    { simpl in Hin. destruct Hin as [Hin|[]]. discriminate. }
    apply in_app_or in Hin as [Hin|Hin].
    + apply (safe_title_chars event_title) in Hin as [[Ha|Hu] _]; [congruence|discriminate].
    + simpl in Hin. intuition discriminate.
  - rewrite !length_app.
    pose proof (length_safe_title event_title).
    simpl. lia.
Qed.

End ImageFacts.

Lemma image_filename_has_no_separator_witness :
  ~ In 47%N (image_filename ascii_isalnum (lit "20250101_120000")
               (lit "Rome/Carthage: peace!"))
  /\ (length (image_filename ascii_isalnum (lit "20250101_120000")
                (lit "Rome/Carthage: peace!"))
      <= length (lit "20250101_120000") + 55)%nat.
Proof.
  apply (image_filename_has_no_separator ascii_isalnum (lit "20250101_120000")
           (lit "Rome/Carthage: peace!")).
  - reflexivity.
  - simpl. intuition discriminate.
Defined.

Example image_filename_sample :
  image_filename ascii_isalnum (lit "20250101_120000")
    (lit "Rome/Carthage: peace! ")
  = lit "20250101_120000_RomeCarthage_peace.png"
  /\ image_filename ascii_isalnum (lit "20250101_120000") (lit "?!")
     = lit "20250101_120000_.png".
Proof. split; reflexivity. Qed.

Lemma ascii_isalnum_not_space (c : char) :
  ascii_isalnum c = true -> isspace c = false.
Proof.
  unfold ascii_isalnum, isspace, char in *. intros H.
  apply not_true_is_false. intros Hs.
  rewrite !orb_true_iff, !andb_true_iff, !N.leb_le in H.
  rewrite !orb_true_iff, !andb_true_iff, !N.leb_le, !N.eqb_eq in Hs.
  lia.
Qed.

(** X23: a title that is safe already is kept.  When no alphanumeric
    character is white space, a title of at most 50 characters, each
    alphanumeric or an underscore, is its own safe title; so cleaning a
    title twice gives what cleaning it once gives. *)
Theorem safe_title_keeps_safe_titles (isalnum : char -> bool) :
  (forall c, isalnum c = true -> isspace c = false) ->
  (forall event_title,
      (length event_title <= 50)%nat ->
      Forall (fun c => isalnum c = true \/ c = 95%N) event_title ->
      safe_title_of isalnum event_title = event_title)
  /\ (forall event_title,
        safe_title_of isalnum (safe_title_of isalnum event_title)
        = safe_title_of isalnum event_title).
Proof.
  intros Hsolid.
  assert (forall event_title,
            (length event_title <= 50)%nat ->
            Forall (fun c => isalnum c = true \/ c = 95%N) event_title ->
            safe_title_of isalnum event_title = event_title) as Hkeep.
  { intros t Hlen Hsafe. unfold safe_title_of.
    assert (List.filter (kept isalnum) t = t) as ->.
    { apply forallb_filter_id. apply forallb_forall. intros c Hin.
      rewrite Forall_forall in Hsafe.
      destruct (Hsafe c (proj2 (list_elem_of_In _ _) Hin)) as [Ha| ->];
        unfold kept; [rewrite Ha; reflexivity|apply orb_true_r]. }
    assert (Forall (fun c => isspace c = false) t) as Hns.
    { eapply Forall_impl; [exact Hsafe|]. intros c [Ha| ->];
        [apply Hsolid, Ha|reflexivity]. }
    rewrite rstrip_solid_all by exact Hns.
    assert (replace_space t = t) as ->.
    { unfold replace_space. rewrite <- (map_id t) at 2. apply map_ext_in.
      intros c Hin. destruct (N.eqb_spec c 32) as [->|]; [|reflexivity].
      rewrite Forall_forall in Hns.
      specialize (Hns 32%N (proj2 (list_elem_of_In _ _) Hin)). discriminate. }
    apply take_ge. exact Hlen. }
  split; [exact Hkeep|].
  intros t. apply Hkeep; [apply length_safe_title|].
  apply Forall_forall. intros c Hin.
  apply (safe_title_chars isalnum t), list_elem_of_In, Hin.
Qed.

Lemma safe_title_keeps_safe_titles_witness :
  safe_title_of ascii_isalnum (lit "The_Silent_Radio") = lit "The_Silent_Radio"
  /\ safe_title_of ascii_isalnum
       (safe_title_of ascii_isalnum (lit "Rome/Carthage: peace! "))
     = safe_title_of ascii_isalnum (lit "Rome/Carthage: peace! ").
Proof.
  destruct (safe_title_keeps_safe_titles ascii_isalnum ascii_isalnum_not_space)
    as [Hkeep Htwice].
  split; [|apply Htwice].
  apply Hkeep; [vm_compute; lia|].
  apply Forall_forall. intros c Hin. apply list_elem_of_In in Hin.
  assert (forallb (fun c => ascii_isalnum c || (c =? 95)%N)
                  (lit "The_Silent_Radio") = true) as Hall by reflexivity.
  rewrite forallb_forall in Hall.
  destruct (orb_prop _ _ (Hall c Hin)) as [Ha|Hu];
    [left; exact Ha|right; apply N.eqb_eq, Hu].
Defined.

(* --------------------------------------------------------------------- *)
(* main                                                                    *)
(* --------------------------------------------------------------------- *)

(** X24: main does not start the bot when a required variable is not set
    or is set to the empty string.  It returns False after two error
    lines, the first one naming the variables that are missing, in the
    order of the list; it sends no request, posts nothing and leaves the
    file alone. *)
Theorem main_stops_without_variables
    (lower : str -> str) (env : oracle) (environ : gmap str str)
    (init : result unit) (w : world) (var : String.string) :
  In var required_vars ->
  (getenv environ var = None \/ getenv environ var = Some []) ->
  In var (missing_vars environ)
  /\ main lower env environ init w
     = (Ok false,
        logged ERROR "Please check your .env file"
          (logged ERROR ("Missing environment variables: "
                         ++ String.concat ", " (missing_vars environ)) w)).
Proof.
  intros Hreq Hunset.
  assert (In var (missing_vars environ)) as Hin.
  { unfold missing_vars. apply filter_In. split; [exact Hreq|].
    unfold unset. destruct Hunset as [-> | ->]; reflexivity. }
  split; [exact Hin|].
  unfold main, try_except, bind.
  destruct (missing_vars environ) as [|v rest]; [contradiction|].
  rewrite !logger_eq. reflexivity.
Qed.

Lemma main_stops_without_variables_witness :
  In "TWITTER_BEARER_TOKEN"%string (missing_vars Env.blank)
  /\ main ascii_lower Sample.fair Env.blank (Ok tt) Sample.fresh
     = (Ok false,
        logged ERROR "Please check your .env file"
          (logged ERROR ("Missing environment variables: "
                         ++ String.concat ", " (missing_vars Env.blank))
                  Sample.fresh)).
Proof.
  apply (main_stops_without_variables ascii_lower Sample.fair Env.blank (Ok tt)
           Sample.fresh "TWITTER_BEARER_TOKEN").
  - simpl. auto 10.
  - right. vm_compute. reflexivity.
Defined.

Example main_names_the_missing_variables :
  missing_vars Env.blank = ["TWITTER_API_KEY"; "TWITTER_BEARER_TOKEN"]%string
  /\ String.concat ", " (missing_vars Env.blank)
     = "TWITTER_API_KEY, TWITTER_BEARER_TOKEN"%string.
Proof. vm_compute. split; reflexivity. Qed.

Lemma missing_vars_none (environ : gmap str str) :
  (forall var, In var required_vars ->
     exists c s, getenv environ var = Some (c :: s)) ->
  missing_vars environ = [].
Proof.
  intros Hall. unfold missing_vars.
  assert (forall l : list String.string,
            (forall var, In var l -> unset environ var = false) ->
            List.filter (unset environ) l = []) as Hnone.
  { induction l as [|v l IH]; intros Hl; [reflexivity|].
    simpl. rewrite (Hl v) by (left; reflexivity).
    apply IH. intros var Hin. apply Hl. right. exact Hin. }
  apply Hnone. intros var Hin. destruct (Hall var Hin) as (c & s & Hv).
  unfold unset. rewrite Hv. reflexivity.
Qed.

(** X25: with the six variables set to non-empty values main is the bot:
    when the bot can be built it returns what run returns and leaves the
    world run leaves; when building the bot raises it returns False after
    one error line, without a request, a post or a write. *)
Theorem main_runs_the_bot
    (lower : str -> str) (env : oracle) (environ : gmap str str) (w : world) :
  (forall var, In var required_vars ->
     exists c s, getenv environ var = Some (c :: s)) ->
  main lower env environ (Ok tt) w = run lower env w
  /\ (forall e,
        main lower env environ (Raise e) w
        = (Ok false, logged ERROR "Application failed" w)).
Proof.
  intros Hall. unfold main. rewrite (missing_vars_none environ Hall).
  unfold try_except, bind, lift. split.
  - destruct (run_outcome lower env w) as (b & w' & _ & _ & _ & _ & Hrun & _).
    rewrite Hrun. reflexivity.
  - intros e. reflexivity.
Qed.

Lemma main_runs_the_bot_witness :
  main ascii_lower Sample.fair Env.full (Ok tt) Sample.fresh
  = run ascii_lower Sample.fair Sample.fresh
  /\ (forall e,
        main ascii_lower Sample.fair Env.full (Raise e) Sample.fresh
        = (Ok false, logged ERROR "Application failed" Sample.fresh)).
Proof.
  apply (main_runs_the_bot ascii_lower Sample.fair Env.full Sample.fresh).
  intros var Hin. simpl in Hin.
  repeat (destruct Hin as [<-|Hin]; [eexists _, _; vm_compute; reflexivity|]).
  contradiction.
Defined.

(** X26: main never raises, whatever the environment, the building of the
    bot and the collaborators do: it returns True or False, and the exit
    code of the process is 0 exactly when it returns True. *)
Theorem main_never_raises
    (lower : str -> str) (env : oracle) (environ : gmap str str)
    (init : result unit) (w : world) :
  exists (success : bool) (w' : world),
    main lower env environ init w = (Ok success, w')
    /\ (exit_code success = 0 <-> success = true)
    /\ (exit_code success = 1 <-> success = false).
Proof.
  assert (forall b, (exit_code b = 0 <-> b = true)
                    /\ (exit_code b = 1 <-> b = false)) as Hcode.
  { intros []; simpl; split; split; intros H; try reflexivity; discriminate. }
  unfold main, try_except, bind, lift.
  destruct (missing_vars environ) as [|v rest].
  - destruct init as [[]|e].
    + destruct (run_outcome lower env w) as (b & w' & _ & _ & _ & _ & Hrun & _).
      rewrite Hrun. exists b, w'. split; [reflexivity|apply Hcode].
    + eexists false, _. split; [reflexivity|apply Hcode].
  - rewrite !logger_eq. eexists false, _. split; [reflexivity|apply Hcode].
Qed.

(* --------------------------------------------------------------------- *)
(* From one cycle to the next                                              *)
(* --------------------------------------------------------------------- *)

(** X27: what a cycle publishes, the next cycle refuses.  When run returns
    True it had a candidate, and against the file it leaves the gate
    rejects that candidate. *)
Theorem published_event_not_repeated
    (lower : str -> str) (env : oracle) (w : world) :
  fst (run lower env w) = Ok true ->
  exists event,
    candidate lower env w = Some event
    /\ gate_verdict lower event (file (snd (run lower env w))) = Ok false.
Proof.
  intros Htrue.
  destruct (candidate lower env w) as [event|] eqn:Hcand.
  - exists event. split; [reflexivity|].
    destruct (run_with_candidate lower env w event Hcand)
      as (w2 & F2 & _ & _ & Hrun).
    rewrite Hrun in Htrue |- *.
    destruct (illustrate_publish_record env event w2) as [[[]|] w3] eqn:Htail;
      cbn in Htrue; try discriminate.
    destruct (illustrate_publish_record_true env event w2 w3 Htail)
      as (image_path & media_id & tweet_id & Himg & Hup & Htw & Hdisk).
    destruct (gate_verdict_has_hash lower event (file w) true
                (candidate_accepted lower env w event Hcand)) as [hash Hhash].
    destruct (illustrate_publish_record_forward env event w2 image_path hash
                media_id tweet_id Himg Hup Htw Hhash)
      as (w3' & Htail' & _ & Hf & _).
    rewrite Htail in Htail'. injection Htail' as _ <-.
    cbn [caught snd]. rewrite Hf. unfold file_after. rewrite Hdisk.
    rewrite gate_verdict_eq, Hhash. cbn [rbind loaded].
    rewrite hash_pass_app.
    assert (hash_pass [event_entry_of env event image_path hash] hash = true)
      as ->.
    { apply hash_pass_elem. eexists. split; [apply list_elem_of_here|].
      apply event_entry_lookups. }
    rewrite orb_true_r. reflexivity.
  - destruct (run_without_candidate_outcome lower env w Hcand)
      as (w' & Hrun & _).
    rewrite Hrun in Htrue. discriminate.
Qed.

Lemma published_event_not_repeated_witness :
  exists event,
    candidate ascii_lower Sample.fair Sample.fresh = Some event
    /\ gate_verdict ascii_lower event
         (file (snd (run ascii_lower Sample.fair Sample.fresh))) = Ok false.
Proof.
  apply (published_event_not_repeated ascii_lower Sample.fair Sample.fresh).
  vm_compute. reflexivity.
Defined.
